(** * goleak: the goroutine stack parser and the TestMain adapter

    A shallow embedding of [internal/stack] (capture of the runtime's
    goroutine dump and its parser) and of [testmain.go] (the adapter that
    turns the outcome of the leak check into an exit code).

    Go strings are byte sequences: they are lists of 8-bit characters here.
    Go's [int] is the 64-bit one.  A Go function that can panic returns an
    [outcome]; the two unbounded [for] loops take fuel, the functions that
    call them supply enough of it, and the development proves that the fuel
    never runs out. *)

From Stdlib Require Import Ascii String List ZArith Lia Bool Arith.
Import ListNotations.

Open Scope list_scope.
Open Scope Z_scope.

(** ** Strings *)

Definition gostring : Type := list ascii.

Notation "$ s" := (list_ascii_of_string s) (at level 9, s at level 0, format "$ s").

(** The line feed, ['\n']. *)
Definition nl : ascii := "010"%char.

Definition len (s : gostring) : Z := Z.of_nat (length s).

Definition gostring_eqb (a b : gostring) : bool :=
  if list_eq_dec ascii_dec a b then true else false.

(** ** The library functions the two files call *)

Module strings.

(** [strings.HasPrefix]. *)
Fixpoint HasPrefix (s prefix : gostring) {struct prefix} : bool :=
  match prefix, s with
  | [], _ => true
  | _ :: _, [] => false
  | p :: prefix', c :: s' => Ascii.eqb c p && HasPrefix s' prefix'
  end.

(** [strings.HasSuffix]. *)
Definition HasSuffix (s suffix : gostring) : bool :=
  HasPrefix (rev s) (rev suffix).

(** [strings.TrimPrefix]: [s] without the leading [prefix], or [s] itself. *)
Definition TrimPrefix (s prefix : gostring) : gostring :=
  if HasPrefix s prefix then skipn (length prefix) s else s.

(** [strings.TrimSuffix]: [s] without the trailing [suffix], or [s] itself. *)
Definition TrimSuffix (s suffix : gostring) : gostring :=
  if HasSuffix s suffix then firstn (length s - length suffix) s else s.

(** [strings.Index]: the offset of the first instance of [substr], [None]
    for Go's [-1]. *)
Fixpoint Index (s substr : gostring) : option nat :=
  if HasPrefix s substr then Some O
  else match s with
       | [] => None
       | _ :: s' => option_map S (Index s' substr)
       end.

(** [strings.LastIndex]: the offset of the last instance of [substr], or
    [-1]. *)
Fixpoint LastIndex_from (i : Z) (s substr : gostring) : Z :=
  match s with
  | [] => if HasPrefix s substr then i else -1
  | _ :: s' =>
      let later := LastIndex_from (i + 1) s' substr in
      if 0 <=? later then later
      else if HasPrefix s substr then i else -1
  end.

Definition LastIndex (s substr : gostring) : Z := LastIndex_from 0 s substr.

(** [strings.SplitN] for a separator that is not empty and a count that is
    positive (the parser calls it with [" "] and [3]): at most [n]
    substrings, the last one the unsplit remainder. *)
Fixpoint genSplit (s sep : gostring) (n : nat) : list gostring :=
  match n with
  | O => [s]
  | S n' =>
      match Index s sep with
      | None => [s]
      | Some m => firstn m s :: genSplit (skipn (m + length sep) s) sep n'
      end
  end.

Definition SplitN (s sep : gostring) (n : nat) : list gostring :=
  match n with
  | O => []
  | S n' => genSplit s sep n'
  end.

(** The six ASCII white-space bytes: tab, line feed, vertical tab, form
    feed, carriage return and space. *)
Definition asciiSpace (c : ascii) : bool :=
  let n := nat_of_ascii c in
  ((9 <=? n) && (n <=? 13) || (n =? 32))%nat.

(** The UTF-8 encodings of the white-space runes above U+007F
    ([unicode.IsSpace]): U+0085, U+00A0, U+1680, U+2000 to U+200A, U+2028,
    U+2029, U+202F, U+205F and U+3000.  [spaceRune2 a b] and
    [spaceRune3 a b c] recognise the two-byte and three-byte ones. *)
Definition spaceRune2 (a b : ascii) : bool :=
  let a := nat_of_ascii a in
  let b := nat_of_ascii b in
  ((a =? 194) && ((b =? 133) || (b =? 160)))%nat.

Definition spaceRune3 (a b c : ascii) : bool :=
  let a := nat_of_ascii a in
  let b := nat_of_ascii b in
  let c := nat_of_ascii c in
  ((a =? 225) && (b =? 154) && (c =? 128)
   || (a =? 226) && (b =? 128)
      && ((128 <=? c) && (c <=? 138) || (c =? 168) || (c =? 169) || (c =? 175))
   || (a =? 226) && (b =? 129) && (c =? 159)
   || (a =? 227) && (b =? 128) && (c =? 128))%nat.

(** [strings.TrimLeftFunc s unicode.IsSpace]: drop white-space runes from
    the front.  A byte sequence that is not the encoding of a white-space
    rune (an invalid one included) stops the scan. *)
Fixpoint trimLeftSpace (s : gostring) : gostring :=
  match s with
  | [] => []
  | a :: s1 =>
      if asciiSpace a then trimLeftSpace s1
      else match s1 with
           | [] => s
           | b :: s2 =>
               if spaceRune2 a b then trimLeftSpace s2
               else match s2 with
                    | [] => s
                    | c :: s3 =>
                        if spaceRune3 a b c then trimLeftSpace s3 else s
                    end
           end
  end.

(** [strings.TrimRightFunc s unicode.IsSpace], on the reversed string: the
    last rune is a white-space one exactly when the string ends with one
    of the encodings. *)
Fixpoint trimRightSpace_rev (r : gostring) : gostring :=
  match r with
  | [] => []
  | c :: r1 =>
      if asciiSpace c then trimRightSpace_rev r1
      else match r1 with
           | [] => r
           | b :: r2 =>
               if spaceRune2 b c then trimRightSpace_rev r2
               else match r2 with
                    | [] => r
                    | a :: r3 =>
                        if spaceRune3 a b c then trimRightSpace_rev r3 else r
                    end
           end
  end.

(** [strings.TrimSpace]: leading and trailing white space removed. *)
Definition TrimSpace (s : gostring) : gostring :=
  rev (trimRightSpace_rev (rev (trimLeftSpace s))).

End strings.

Module strconv.

Definition maxInt : Z := 2 ^ 63 - 1.
Definition minInt : Z := - 2 ^ 63.

Inductive NumError : Type := ErrSyntax | ErrRange.

Definition digit (c : ascii) : option Z :=
  let n := nat_of_ascii c in
  if ((48 <=? n) && (n <=? 57))%nat then Some (Z.of_nat n - 48) else None.

Fixpoint digits (s : gostring) (acc : Z) : option Z :=
  match s with
  | [] => Some acc
  | c :: s' =>
      match digit c with
      | Some d => digits s' (acc * 10 + d)
      | None => None
      end
  end.

(** [strconv.Atoi]: an optional sign and decimal digits, at least one; a
    value outside [int] is a range error and is clamped. *)
Definition Atoi (s : gostring) : Z * option NumError :=
  let '(neg, body) :=
    match s with
    | c :: t =>
        if Ascii.eqb c "-" then (true, t)
        else if Ascii.eqb c "+" then (false, t)
        else (false, s)
    | [] => (false, s)
    end in
  match body with
  | [] => (0, Some ErrSyntax)
  | _ :: _ =>
      match digits body 0 with
      | None => (0, Some ErrSyntax)
      | Some v =>
          let v := if neg then - v else v in
          if v <? minInt then (minInt, Some ErrRange)
          else if maxInt <? v then (maxInt, Some ErrRange)
          else (v, None)
      end
  end.

End strconv.

Module bufio.

Inductive readError : Type :=
| EOF                       (* io.EOF *)
| otherError.               (* what a failing underlying reader reports *)

(** [ReadString] of a [bufio.Reader] over a [bytes.Reader]: the reader is the
    text not read yet.  It returns the text up to and including the first
    [delim]; when the text ends before a [delim], what was read and
    [io.EOF]. *)
Fixpoint ReadString (r : gostring) (delim : ascii)
  : gostring * option readError * gostring :=
  match r with
  | [] => ([], Some EOF, [])
  | c :: r' =>
      if Ascii.eqb c delim then ([c], None, r')
      else let '(line, err, rest) := ReadString r' delim in
           (c :: line, err, rest)
  end.

End bufio.

(** ** Values shared by the two packages *)

(** A Go [error] by its dynamic type.  [errors.New] and [fmt.Errorf] (with no
    wrapping verb) build the same type; the format and the operands of
    [fmt.Errorf] are kept apart, not rendered.  [stackParseErr] is the
    error type declared as [type stackParseErr string], the one that
    [verifyTestMain] asserts on. *)
Inductive error : Type :=
| errors_New (text : gostring)
| fmt_Errorf (format : gostring) (operands : list gostring)
| stackParseErr (text : gostring).

(** What a panic carries. *)
Inductive panicValue : Type :=
| panicString (text : gostring)
| panicSprintf (format : gostring) (operands : list gostring)
| nilDereference            (* invalid memory address or nil pointer dereference *)
| makesliceLen              (* makeslice: len out of range *)
| sliceBounds               (* slice bounds out of range *)
| indexOutOfRange.          (* index out of range *)

(** How a call ends. *)
Inductive outcome (A : Type) : Type :=
| Returns (a : A)
| Panics (p : panicValue).

Arguments Returns {A} a.
Arguments Panics {A} p.

(** The double quote, which a literal cannot hold. *)
Definition dquote : ascii := "034"%char.

(** ** Package stack *)

Module stack.

Import strings.

Definition _defaultBufferSize : Z := 64 * 1024.

Definition errNoStacks : error := errors_New $"no stacks parsed".

Record Stack : Type := mkStack {
  id : Z;
  state : gostring;
  firstFunction : gostring;
  fullStack : gostring          (* the contents of the bytes.Buffer *)
}.

Definition Full (s : Stack) : gostring := fullStack s.

(** [runtime.Stack(buf, all)] by the length of [buf]: the buffer after the
    call and the number of bytes written. *)
Definition runtime_Stack : Type := Z -> bool -> gostring * Z.

(** 64-bit wrap-around of [int]. *)
Definition wrapInt (z : Z) : Z := (z + 2 ^ 63) mod 2 ^ 64 - 2 ^ 63.

(** [buf[:n]] for a [buf] of length [i], after the test [n < i]. *)
Definition sliceTo (buf : gostring) (n : Z) : outcome gostring :=
  if n <? 0 then Panics sliceBounds else Returns (firstn (Z.to_nat n) buf).

(** The loop of [getStackBuffer].  [make([]byte, i)] panics on a negative
    length, which is what [i *= 2] wraps to after [2^62]. *)
Fixpoint getStackBuffer_loop (fuel : nat) (rt : runtime_Stack) (all : bool) (i : Z)
  : option (outcome gostring) :=
  match fuel with
  | O => None
  | S fuel' =>
      if i <? 0 then Some (Panics makesliceLen)
      else
        let '(buf, n) := rt i all in
        if n <? i then Some (sliceTo buf n)
        else getStackBuffer_loop fuel' rt all (wrapInt (i * 2))
  end.

Definition getStackBuffer (rt : runtime_Stack) (all : bool) : option (outcome gostring) :=
  getStackBuffer_loop 48 rt all _defaultBufferSize.

Definition parseFirstFunc (line : gostring) : outcome gostring :=
  let line := TrimSpace line in
  let idx := LastIndex line $"(" in
  if 0 <? idx then Returns (firstn (Z.to_nat idx) line)
  else Panics (panicSprintf $"function calls missing parents: %q" [line]).

Definition headerFormatError : gostring :=
  $"stack header not in expected format " ++ [dquote] ++ $"goroutine ID-NUM [state]"
    ++ [dquote] ++ $", got %q".

Definition parseGoStackHeader (line : gostring) : Z * gostring * option error :=
  let line := TrimSuffix line (":"%char :: [nl]) in
  let parts := SplitN line $" " 3 in
  match parts with
  | [_; part1; part2] =>
      match strconv.Atoi part1 with
      | (_, Some _) =>
          (0, [], Some (fmt_Errorf $"failed to parse goroutine ID: %v in line %q" [part1; line]))
      | (id, None) =>
          let state := TrimSuffix (TrimPrefix part2 $"[") $"]" in
          (id, state, None)
      end
  | _ => (0, [], Some (fmt_Errorf headerFormatError [line]))
  end.

(** What [getStacks] returns or panics with. *)
Definition result : Type := outcome (list Stack * option error).

(** The state of the scan between two lines, or the way the scan left
    [getStacks]. *)
Inductive step : Type :=
| Continue (stacks : list Stack) (curStack : option Stack)
| Done (r : result).

(** [stacks = append(stacks, *curStack)] under [curStack != nil]. *)
Definition flush (stacks : list Stack) (curStack : option Stack) : list Stack :=
  match curStack with
  | Some cur => stacks ++ [cur]
  | None => stacks
  end.

(** The second half of the loop body: the line is written to the current
    stack, a nil pointer when no header came first, and the first function
    is parsed from a line that is not a header while none is recorded. *)
Definition appendLine (line : gostring) (isFirstLine : bool)
           (stacks : list Stack) (curStack : option Stack) : step :=
  match curStack with
  | None => Done (Panics nilDereference)
  | Some cur =>
      let cur := mkStack (id cur) (state cur) (firstFunction cur) (fullStack cur ++ line) in
      if negb isFirstLine && gostring_eqb (firstFunction cur) [] then
        match parseFirstFunc line with
        | Returns f => Continue stacks (Some (mkStack (id cur) (state cur) f (fullStack cur)))
        | Panics p => Done (Panics p)
        end
      else Continue stacks (Some cur)
  end.

(** One turn of the loop on a line that [ReadString] returned in full. *)
Definition scanLine (line : gostring) (stacks : list Stack) (curStack : option Stack) : step :=
  if HasPrefix line $"goroutine " then
    let stacks := flush stacks curStack in
    match parseGoStackHeader line with
    | (_, _, Some err) => Done (Returns ([], Some err))
    | (id, goState, None) =>
        appendLine line true stacks (Some (mkStack id goState [] []))
    end
  else appendLine line false stacks curStack.

(** The [for] loop of [getStacks]: [Continue] is the state at [break]. *)
Fixpoint getStacks_loop (fuel : nat) (stackReader : gostring)
         (stacks : list Stack) (curStack : option Stack) : option step :=
  match fuel with
  | O => None
  | S fuel' =>
      match bufio.ReadString stackReader nl with
      | (_, Some bufio.EOF, _) => Some (Continue stacks curStack)
      | (_, Some bufio.otherError, _) =>
          Some (Done (Panics (panicString $"bufio.NewReader failed on a fixed string")))
      | (line, None, stackReader') =>
          match scanLine line stacks curStack with
          | Continue stacks' curStack' => getStacks_loop fuel' stackReader' stacks' curStack'
          | Done r => Some (Done r)
          end
      end
  end.

(** What follows the loop. *)
Definition getStacks_end (stacks : list Stack) (curStack : option Stack) : result :=
  let stacks := flush stacks curStack in
  if (length stacks =? 0)%nat then Returns ([], Some errNoStacks)
  else Returns (stacks, None).

(** The scan of a whole buffer; a line takes one unit of fuel. *)
Definition scan (buf : gostring) : option step :=
  getStacks_loop (S (length buf)) buf [] None.

Definition getStacks (rt : runtime_Stack) (all : bool) : option result :=
  match getStackBuffer rt all with
  | None => None
  | Some (Panics p) => Some (Panics p)
  | Some (Returns buf) =>
      match scan buf with
      | None => None
      | Some (Continue stacks curStack) => Some (getStacks_end stacks curStack)
      | Some (Done r) => Some r
      end
  end.

Definition All (rt : runtime_Stack) : option result := getStacks rt true.

Definition Current (rt : runtime_Stack) : option (outcome (Stack * option error)) :=
  match getStacks rt false with
  | None => None
  | Some (Panics p) => Some (Panics p)
  | Some (Returns (_, Some err)) => Some (Returns (mkStack 0 [] [] [], Some err))
  | Some (Returns (stacks, None)) =>
      match stacks with
      | s :: _ => Some (Returns (s, None))
      | [] => Some (Panics indexOutOfRange)
      end
  end.

(** A primitive that holds one dump: it writes as much of it as the buffer
    takes, leaves zero bytes after it, and reports the bytes written. *)
Definition dumpRuntime (dump : gostring) : runtime_Stack :=
  fun i _ =>
    let n := Z.min (len dump) i in
    (firstn (Z.to_nat n) dump ++ repeat zero (Z.to_nat (i - n)), n).

End stack.

(** ** Package goleak: the TestMain adapter *)

Module goleak.

Section TestMain.

(** The options are handed to [Find] untouched; their type is not part of
    these files. *)
Variable Option : Type.

(** [verifyTestMain] acts on the world in three ways: it runs the tests,
    it calls [Find], and it writes to [_osStderr].  A program is the tree
    of these calls. *)
Inductive prog (A : Type) : Type :=
| ret (a : A)
| callRun (k : Z -> prog A)
| callFind (options : list Option) (k : option error -> prog A)
| callFprintf (format : gostring) (operand : error) (k : prog A).

Arguments ret {A} a.
Arguments callRun {A} k.
Arguments callFind {A} options k.
Arguments callFprintf {A} format operand k.

Fixpoint bind {A B : Type} (p : prog A) (f : A -> prog B) : prog B :=
  match p with
  | ret a => f a
  | callRun k => callRun (fun code => bind (k code) f)
  | callFind options k => callFind options (fun err => bind (k err) f)
  | callFprintf format operand k => callFprintf format operand (bind k f)
  end.

(** [m.Run()]. *)
Definition Run : prog Z := callRun ret.

(** [Find(options...)]. *)
Definition Find (options : list Option) : prog (option error) := callFind options ret.

(** [fmt.Fprintf(_osStderr, format, err)]. *)
Definition Fprintf_osStderr (format : gostring) (err : error) : prog unit :=
  callFprintf format err (ret tt).

Notation "x <- p ;; q" := (bind p (fun x => q))
  (at level 61, p at next level, right associativity).
Notation "p ;; q" := (bind p (fun _ => q))
  (at level 61, right associativity).

Definition skippedFormat : gostring :=
  $"goleak: skipped due to stack parsing failures: %v" ++ [nl].

Definition failedFormat : gostring :=
  $"goleak: failed due to stack parsing failures: %v" ++ [nl].

(** The type assertion [err.(stackParseErr)]. *)
Definition isStackParseErr (err : error) : bool :=
  match err with
  | stackParseErr _ => true
  | _ => false
  end.

Definition verifyTestMain (options : list Option) : prog Z :=
  exitCode <- Run ;;
  if negb (exitCode =? 0) then
    ret exitCode
  else
    err <- Find options ;;
    match err with
    | None => ret 0
    | Some err =>
        if isStackParseErr err then
          Fprintf_osStderr skippedFormat err ;; ret 0
        else
          Fprintf_osStderr failedFormat err ;; ret 1
    end.

(** What an observer sees of a run. *)
Inductive event : Type :=
| RunCalled
| FindCalled (options : list Option)
| StderrWritten (format : gostring) (operand : error).

(** The stubs of a test: the outcome of the test run and of the leak
    check.  [Find] is not part of these files; what it returns is an input
    of the run. *)
Record stubs : Type := mkStubs {
  runResult : Z;
  findResult : list Option -> option error
}.

(** A run against the stubs: the value returned and the calls made, in
    order. *)
Fixpoint exec {A : Type} (w : stubs) (p : prog A) : A * list event :=
  match p with
  | ret a => (a, [])
  | callRun k =>
      let '(a, trace) := exec w (k (runResult w)) in (a, RunCalled :: trace)
  | callFind options k =>
      let '(a, trace) := exec w (k (findResult w options)) in
      (a, FindCalled options :: trace)
  | callFprintf format operand k =>
      let '(a, trace) := exec w k in (a, StderrWritten format operand :: trace)
  end.

End TestMain.

Arguments ret {Option A} a.
Arguments RunCalled {Option}.
Arguments StderrWritten {Option} format operand.
Arguments FindCalled {Option} options.
Arguments mkStubs {Option} runResult findResult.
Arguments runResult {Option} s.
Arguments findResult {Option} s options.
Arguments exec {Option A} w p.

End goleak.

(** * The vocabulary of the statements *)

Import strings.

(** A line as [ReadString] returns it: text without a line feed, then one. *)
Definition is_line (l : gostring) : Prop :=
  exists body, l = body ++ [nl] /\ ~ In nl body.

(** The complete lines of a text and the unterminated text after them. *)
Fixpoint splitLines (s : gostring) : list gostring * gostring :=
  match s with
  | [] => ([], [])
  | c :: s' =>
      let '(lines, tail) := splitLines s' in
      if Ascii.eqb c nl then ([c] :: lines, tail)
      else match lines with
           | [] => ([], c :: tail)
           | l :: lines' => ((c :: l) :: lines', tail)
           end
  end.


Import stack.

(** The loop of [getStacks] over lines already cut: the state after the last
    line, or the way the scan left [getStacks] at the first line that ends
    it. *)
Fixpoint scanLines (lines : list gostring) (stacks : list Stack) (curStack : option Stack)
  : step :=
  match lines with
  | [] => Continue stacks curStack
  | line :: lines' =>
      match scanLine line stacks curStack with
      | Continue stacks' curStack' => scanLines lines' stacks' curStack'
      | Done r => Done r
      end
  end.

(** What [getStacks] makes of the state of the scan or of its early end. *)
Definition conclude (s : step) : result :=
  match s with
  | Continue stacks curStack => getStacks_end stacks curStack
  | Done r => r
  end.

(** The length of the buffer at the attempt of rank [j] of [getStackBuffer]:
    [_defaultBufferSize] doubled [j] times in [int]. *)
Definition capacity (j : nat) : Z :=
  Nat.iter j (fun i => wrapInt (i * 2)) _defaultBufferSize.

(** The attempt of rank [j] fits: the primitive reports fewer bytes than the
    buffer holds. *)
Definition fits (rt : runtime_Stack) (all : bool) (j : nat) : Prop :=
  snd (rt (capacity j) all) < capacity j.

(** What [getStacks] makes of a buffer, [None] when the fuel runs out. *)
Definition parse (buf : gostring) : option result :=
  option_map conclude (scan buf).

(** A text that does not stop in the middle of a line. *)
Definition complete (s : gostring) : Prop :=
  s = [] \/ exists s', s = s' ++ [nl].

(** The lines of a text that start a goroutine. *)
Definition isHeader (line : gostring) : bool := HasPrefix line $"goroutine ".

Definition headerCount (buf : gostring) : nat :=
  length (filter isHeader (fst (splitLines buf))).

(** [f] is the trimmed text of [line] up to its last opening parenthesis,
    which is not its first character. *)
Definition firstFunctionOf (line f : gostring) : Prop :=
  let text := TrimSpace line in
  0 < LastIndex text $"(" /\ f = firstn (Z.to_nat (LastIndex text $"(")) text.

(** A line that is not a header. *)
Definition bodyLine (l : gostring) : Prop := is_line l /\ isHeader l = false.

(** The shape of a parsed record: its text is one header line and the body
    lines after it, and its first function is empty when there is no body
    line and comes from the first body line when there is one. *)
Definition recordShape (s : Stack) : Prop :=
  exists header bodies,
    fullStack s = header ++ concat bodies
    /\ is_line header /\ isHeader header = true
    /\ Forall bodyLine bodies
    /\ match bodies with
       | [] => firstFunction s = []
       | first :: _ => firstFunctionOf first (firstFunction s)
       end.

(** Following the words of the specification: the trimmed text of a body
    line cut at the first opening parenthesis that is at a positive offset;
    [None] when there is none. *)
Definition firstFunction_spec (line : gostring) : option gostring :=
  let text := TrimSpace line in
  match text with
  | [] => None
  | _ :: text' =>
      match Index text' $"(" with
      | Some m => Some (firstn (S m) text)
      | None => None
      end
  end.

(** *** Well-formed dumps *)

(** A record of a dump: the decimal digits of the goroutine id, most
    significant first, the state, and the body lines, each without its line
    feed. *)
Record goroutine : Type := mkGoroutine {
  idDigits : list nat;
  goState : gostring;
  frames : list gostring
}.

Definition digitChar (d : nat) : ascii := ascii_of_nat (48 + d).

(** The number that a sequence of decimal digits writes. *)
Definition decimal (ds : list nat) : Z :=
  fold_left (fun acc d => acc * 10 + Z.of_nat d) ds 0.

(** [goroutine <id> [<state>]:] and a line feed. *)
Definition headerLine (g : goroutine) : gostring :=
  $"goroutine " ++ map digitChar (idDigits g) ++ $" [" ++ goState g ++ $"]:" ++ [nl].

Definition bodyLines (g : goroutine) : list gostring :=
  map (fun f => f ++ [nl]) (frames g).

(** The text of a record and of a dump. *)
Definition render (g : goroutine) : gostring :=
  headerLine g ++ concat (bodyLines g).

Definition dumpOf (gs : list goroutine) : gostring := concat (map render gs).

Definition noLineFeed (s : gostring) : bool := negb (existsb (Ascii.eqb nl) s).

(** A record is well formed when its id is a decimal numeral of an [int],
    its state and its body lines hold no line feed, it has a body line, no
    body line starts like a header, and the first body line names a function
    call: its trimmed text has an opening parenthesis after its first
    character. *)
Definition wellFormed (g : goroutine) : bool :=
  match idDigits g with [] => false | _ :: _ => true end
  && forallb (fun d => d <? 10)%nat (idDigits g)
  && (decimal (idDigits g) <=? strconv.maxInt)
  && noLineFeed (goState g)
  && forallb (fun f => noLineFeed f && negb (isHeader (f ++ [nl]))) (frames g)
  && match frames g with
     | [] => false
     | f :: _ => 0 <? LastIndex (TrimSpace (f ++ [nl])) $"("
     end.

(** The stack that a well-formed record stands for. *)
Definition stackOf (g : goroutine) : Stack :=
  mkStack (decimal (idDigits g))
          (goState g)
          (match frames g with
           | [] => []
           | f :: _ =>
               let text := TrimSpace (f ++ [nl]) in
               firstn (Z.to_nat (LastIndex text $"(")) text
           end)
          (render g).

(** The lines of a dump, record after record. *)
Definition linesOf (gs : list goroutine) : list gostring :=
  flat_map (fun g => headerLine g :: bodyLines g) gs.

(** *** Sample inputs *)

(** Two goroutines, the first one in a method with a pointer receiver. *)
Definition sampleRecords : list goroutine :=
  [ mkGoroutine [1%nat] $"running"
                [$"main.(" ++ $"*T).run(0x1)"; "009"%char :: $"/src/main.go:12 +0x1d"];
    mkGoroutine [2%nat; 2%nat] $"chan receive" [$"net.accept(...)"] ].

(** One goroutine, as a capture of the current goroutine holds. *)
Definition sampleCurrent : list goroutine :=
  [ mkGoroutine [7%nat] $"running" [$"testing.tRunner(0xc000)"] ].

(** A header and a first body line that names no call. *)
Definition sampleNoParen : gostring :=
  $"goroutine 1 [running]:" ++ [nl] ++ $"main" ++ [nl].

(** A header whose id is not a number. *)
Definition sampleBadId : gostring :=
  $"goroutine abc [running]:" ++ [nl] ++ $"main.f(...)" ++ [nl].

(** A dump that starts in the middle of a record. *)
Definition sampleNoHeader : gostring :=
  $"main.f(...)" ++ [nl] ++ $"goroutine 1 [running]:" ++ [nl].

(** Test stubs over options of the unit type. *)
Definition stubsOf (code : Z) (err : option error) : goleak.stubs unit :=
  goleak.mkStubs code (fun _ => err).

(** A line given by its text before the line feed. *)
Ltac line_of body :=
  exists body; split; [reflexivity | simpl; intuition discriminate].

(** *** Further vocabulary *)

(** The id and the state of a stack, and those that a header line writes. *)
Definition idState (s : Stack) : Z * gostring := (id s, state s).

Definition headerFields (line : gostring) : Z * gostring :=
  fst (parseGoStackHeader line).

(** The header part of well-formedness: the id is a decimal numeral of an
    [int] and the state holds no line feed. *)
Definition headerOk (g : goroutine) : bool :=
  match idDigits g with [] => false | _ :: _ => true end
  && forallb (fun d => d <? 10)%nat (idDigits g)
  && (decimal (idDigits g) <=? strconv.maxInt)
  && noLineFeed (goState g).

(** The stack of a record that has no body line. *)
Definition bareStack (g : goroutine) : Stack :=
  mkStack (decimal (idDigits g)) (goState g) [] (headerLine g).

(** A primitive that always fills the buffer it is given. *)
Definition fullRuntime : runtime_Stack := fun i _ => ([], i).

(** The panics that [getStacks] can end with. *)
Definition getStacksPanic (p : panicValue) : Prop :=
  p = nilDereference
  \/ (exists text, p = panicSprintf $"function calls missing parents: %q" [text])
  \/ p = makesliceLen
  \/ p = sliceBounds.

(** *** The exported entry point of the adapter *)

(** What the process does in [VerifyTestMain]: the calls of
    [verifyTestMain], then the call of [_osExit]. *)
Inductive processEvent (Option : Type) : Type :=
| Adapter (e : goleak.event Option)
| OsExit (code : Z).

Arguments Adapter {Option} e.
Arguments OsExit {Option} code.

(** [VerifyTestMain]: [_osExit(verifyTestMain(m, options...))]. *)
Definition VerifyTestMain {Option : Type} (w : goleak.stubs Option) (options : list Option)
  : list (processEvent Option) :=
  let '(code, trace) := goleak.exec w (goleak.verifyTestMain Option options) in
  map Adapter trace ++ [OsExit code].

Definition isStderrWritten {Option : Type} (e : goleak.event Option) : bool :=
  match e with
  | goleak.StderrWritten _ _ => true
  | _ => false
  end.

Definition isFindCalled {Option : Type} (e : goleak.event Option) : bool :=
  match e with
  | goleak.FindCalled _ => true
  | _ => false
  end.

(** * Properties *)

(** ** The library models on sample values *)

Example TrimSpace_ascii :
  TrimSpace ("009"%char :: $"  main.run(0x1) " ++ [nl]) = $"main.run(0x1)".
Proof. reflexivity. Qed.

(** U+00A0 before the text and U+2003 after it are white space; the lone
    byte 194 is not. *)
Example TrimSpace_unicode :
  TrimSpace (["194"; "160"]%char ++ $"f(x)" ++ ["194"; "226"; "128"; "131"]%char)
  = $"f(x)" ++ ["194"%char].
Proof. reflexivity. Qed.

Example LastIndex_receiver : LastIndex ($"main.(" ++ $"*T).run(0x1)") $"(" = 13.
Proof. reflexivity. Qed.

Example LastIndex_absent : LastIndex $"main" $"(" = -1.
Proof. reflexivity. Qed.

Example SplitN_header :
  SplitN $"goroutine 12 [chan receive]" $" " 3
  = [$"goroutine"; $"12"; $"[chan receive]"].
Proof. reflexivity. Qed.

Example Atoi_out_of_range :
  strconv.Atoi $"9223372036854775808" = (strconv.maxInt, Some strconv.ErrRange).
Proof. reflexivity. Qed.

Example Atoi_leading_zeros : strconv.Atoi $"0012" = (12, None).
Proof. reflexivity. Qed.

Example ReadString_partial :
  bufio.ReadString $"goroutine 1" nl = ($"goroutine 1", Some bufio.EOF, []).
Proof. reflexivity. Qed.

Example parseGoStackHeader_sample :
  stack.parseGoStackHeader ($"goroutine 643 [runnable]:" ++ [nl])
  = (643, $"runnable", None).
Proof. reflexivity. Qed.

(** ** Prefixes, suffixes and separators *)

Lemma eqb_refl_ascii (c : ascii) : Ascii.eqb c c = true.
Proof. apply Ascii.eqb_eq; reflexivity. Qed.

Lemma HasPrefix_app (p s : gostring) : HasPrefix (p ++ s) p = true.
Proof.
  induction p as [|c p IH]; simpl; [reflexivity|].
  rewrite eqb_refl_ascii, IH; reflexivity.
Qed.

Lemma HasPrefix_inv (p s : gostring) :
  HasPrefix s p = true -> exists t, s = p ++ t.
Proof.
  revert s; induction p as [|c p IH]; intros s H.
  - exists s; reflexivity.
  - destruct s as [|d s]; simpl in H; [discriminate|].
    apply andb_prop in H; destruct H as [Hc Hp].
    apply Ascii.eqb_eq in Hc; subst d.
    destruct (IH _ Hp) as [t ->]; exists t; reflexivity.
Qed.

Lemma HasSuffix_app (s p : gostring) : HasSuffix (s ++ p) p = true.
Proof. unfold HasSuffix; rewrite rev_app_distr; apply HasPrefix_app. Qed.

Lemma TrimPrefix_app (p s : gostring) : TrimPrefix (p ++ s) p = s.
Proof.
  unfold TrimPrefix; rewrite HasPrefix_app.
  rewrite skipn_app, skipn_all, Nat.sub_diag; reflexivity.
Qed.

Lemma TrimSuffix_app (s p : gostring) : TrimSuffix (s ++ p) p = s.
Proof.
  unfold TrimSuffix; rewrite HasSuffix_app, length_app.
  replace (length s + length p - length p)%nat with (length s) by lia.
  rewrite firstn_app, firstn_all, Nat.sub_diag; simpl; apply app_nil_r.
Qed.

Lemma Index_char_found (c : ascii) (a b : gostring) :
  ~ In c a -> Index (a ++ c :: b) [c] = Some (length a).
Proof.
  induction a as [|d a IH]; intros Hn.
  - destruct b; simpl; rewrite eqb_refl_ascii; reflexivity.
  - assert (Hd : Ascii.eqb d c = false).
    { apply Ascii.eqb_neq; intros ->; apply Hn; left; reflexivity. }
    change (Index ((d :: a) ++ c :: b) [c])
      with (if HasPrefix (d :: a ++ c :: b) [c] then Some O
            else option_map S (Index (a ++ c :: b) [c])).
    simpl HasPrefix; rewrite Hd; simpl.
    rewrite IH; [reflexivity|]. intros Hin; apply Hn; right; exact Hin.
Qed.

Lemma Index_char_none (c : ascii) (a : gostring) :
  ~ In c a -> Index a [c] = None.
Proof.
  induction a as [|d a IH]; intros Hn; [reflexivity|].
  assert (Hd : Ascii.eqb d c = false).
  { apply Ascii.eqb_neq; intros ->; apply Hn; left; reflexivity. }
  change (Index (d :: a) [c])
    with (if HasPrefix (d :: a) [c] then Some O else option_map S (Index a [c])).
  simpl HasPrefix; rewrite Hd; simpl.
  rewrite IH; [reflexivity|]. intros Hin; apply Hn; right; exact Hin.
Qed.

(** ** Lines *)

Lemma ReadString_line (body rest : gostring) :
  ~ In nl body ->
  bufio.ReadString (body ++ nl :: rest) nl = (body ++ [nl], None, rest).
Proof.
  induction body as [|c body IH]; intros Hn; simpl.
  - reflexivity.
  - assert (Hc : Ascii.eqb c nl = false).
    { apply Ascii.eqb_neq; intros ->; apply Hn; left; reflexivity. }
    rewrite Hc, IH; [reflexivity|]. intros Hin; apply Hn; right; exact Hin.
Qed.

Lemma ReadString_EOF (tail : gostring) :
  ~ In nl tail ->
  bufio.ReadString tail nl = (tail, Some bufio.EOF, []).
Proof.
  induction tail as [|c tail IH]; intros Hn; simpl.
  - reflexivity.
  - assert (Hc : Ascii.eqb c nl = false).
    { apply Ascii.eqb_neq; intros ->; apply Hn; left; reflexivity. }
    rewrite Hc, IH; [reflexivity|]. intros Hin; apply Hn; right; exact Hin.
Qed.

Lemma splitLines_spec (s : gostring) :
  s = concat (fst (splitLines s)) ++ snd (splitLines s)
  /\ Forall is_line (fst (splitLines s))
  /\ ~ In nl (snd (splitLines s)).
Proof.
  induction s as [|c s IH]; simpl.
  - repeat split; [constructor | intros []].
  - destruct (splitLines s) as [lines tail]; simpl in *.
    destruct IH as (Hs & Hl & Ht).
    destruct (Ascii.eqb c nl) eqn:Hc.
    + apply Ascii.eqb_eq in Hc; subst c; simpl.
      repeat split; [congruence | | exact Ht].
      constructor; [|exact Hl]. exists []; split; [reflexivity | intros []].
    + apply Ascii.eqb_neq in Hc.
      destruct lines as [|l lines]; simpl in *.
      * repeat split; [congruence | constructor |].
        intros [E | Hin]; [apply Hc; exact E | exact (Ht Hin)].
      * repeat split; [congruence | | exact Ht].
        inversion Hl as [|? ? (body & -> & Hb) Hl']; subst.
        constructor; [|exact Hl'].
        exists (c :: body); split; [reflexivity|].
        intros [E | Hin]; [apply Hc; exact E | exact (Hb Hin)].
Qed.

Lemma splitLines_lines (lines : list gostring) (tail : gostring) :
  Forall is_line lines -> ~ In nl tail ->
  splitLines (concat lines ++ tail) = (lines, tail).
Proof.
  intros Hl Ht; induction Hl as [|l lines (body & -> & Hb) _ IH]; simpl.
  - induction tail as [|c tail IHt]; simpl; [reflexivity|].
    rewrite IHt by (intros Hin; apply Ht; right; exact Hin).
    assert (Hc : Ascii.eqb c nl = false).
    { apply Ascii.eqb_neq; intros ->; apply Ht; left; reflexivity. }
    rewrite Hc; reflexivity.
  - rewrite <- !app_assoc; simpl.
    induction body as [|c body IHb]; simpl.
    + rewrite IH; reflexivity.
    + rewrite IHb by (intros Hin; apply Hb; right; exact Hin).
      assert (Hc : Ascii.eqb c nl = false).
      { apply Ascii.eqb_neq; intros ->; apply Hb; left; reflexivity. }
      rewrite Hc; reflexivity.
Qed.

(** ** The scan, line by line *)

Lemma is_line_length (l : gostring) : is_line l -> (0 < length l)%nat.
Proof. intros (body & -> & _); rewrite length_app; simpl; lia. Qed.

Lemma lines_length (lines : list gostring) :
  Forall is_line lines -> (length lines <= length (concat lines))%nat.
Proof.
  induction 1 as [|l lines Hl _ IH]; simpl; [lia|].
  apply is_line_length in Hl; rewrite length_app; lia.
Qed.

Lemma getStacks_loop_lines (lines : list gostring) (tail : gostring) :
  Forall is_line lines -> ~ In nl tail ->
  forall fuel stacks curStack,
    (length lines < fuel)%nat ->
    getStacks_loop fuel (concat lines ++ tail) stacks curStack
    = Some (scanLines lines stacks curStack).
Proof.
  intros Hl Ht; induction Hl as [|l lines (body & -> & Hb) _ IH];
    intros fuel stacks curStack Hf;
    (destruct fuel as [|fuel]; [simpl in Hf; lia|]); simpl.
  - rewrite ReadString_EOF by exact Ht; reflexivity.
  - rewrite <- !app_assoc; simpl.
    rewrite ReadString_line by exact Hb.
    destruct (scanLine (body ++ [nl]) stacks curStack) as [stacks' cur'|r];
      [|reflexivity].
    apply IH; simpl in Hf; lia.
Qed.

(** The fuel that [scan] supplies is enough. *)
Lemma scan_lines (lines : list gostring) (tail : gostring) :
  Forall is_line lines -> ~ In nl tail ->
  scan (concat lines ++ tail) = Some (scanLines lines [] None).
Proof.
  intros Hl Ht; unfold scan; apply getStacks_loop_lines; try assumption.
  pose proof (lines_length lines Hl); rewrite length_app; lia.
Qed.

Lemma scan_splitLines (buf : gostring) :
  scan buf = Some (scanLines (fst (splitLines buf)) [] None).
Proof.
  destruct (splitLines_spec buf) as (Hs & Hl & Ht).
  rewrite Hs at 1; apply scan_lines; assumption.
Qed.

Lemma getStacks_lines (rt : runtime_Stack) (all : bool) (buf : gostring) :
  getStackBuffer rt all = Some (Returns buf) ->
  getStacks rt all = Some (conclude (scanLines (fst (splitLines buf)) [] None)).
Proof.
  intros Hb; unfold getStacks; rewrite Hb, scan_splitLines.
  destruct (scanLines _ _ _); reflexivity.
Qed.

(** ** The capture loop *)

Lemma capacity_S (j : nat) : capacity (S j) = wrapInt (capacity j * 2).
Proof. reflexivity. Qed.

Lemma capacity_pow (j : nat) :
  (j <= 46)%nat -> capacity j = 2 ^ (16 + Z.of_nat j).
Proof.
  induction j as [|j IH]; intros Hj; [reflexivity|].
  rewrite capacity_S, IH by lia.
  replace (16 + Z.of_nat (S j)) with (Z.succ (16 + Z.of_nat j)) by lia.
  rewrite Z.pow_succ_r by lia.
  assert (Hb : 0 < 2 ^ (16 + Z.of_nat j) <= 2 ^ 61).
  { split; [apply Z.pow_pos_nonneg; lia|].
    apply Z.pow_le_mono_r; lia. }
  unfold wrapInt.
  rewrite Z.mod_small; [lia|].
  change (2 ^ 63) with 9223372036854775808.
  change (2 ^ 64) with 18446744073709551616.
  change (2 ^ 61) with 2305843009213693952 in Hb. lia.
Qed.

Lemma capacity_pos (j : nat) : (j <= 46)%nat -> 0 < capacity j.
Proof.
  intros Hj; rewrite capacity_pow by exact Hj. apply Z.pow_pos_nonneg; lia.
Qed.

Lemma capacity_47 : capacity 47 = - 2 ^ 63.
Proof.
  rewrite capacity_S, capacity_pow by lia. reflexivity.
Qed.

Lemma capacity_mono (j k : nat) :
  (j <= k)%nat -> (k <= 46)%nat -> capacity j <= capacity k.
Proof.
  intros Hjk Hk; rewrite !capacity_pow by lia.
  apply Z.pow_le_mono_r; lia.
Qed.

(** A turn of the loop that does not fit goes on with the doubled length. *)
Lemma getStackBuffer_loop_retry (fuel : nat) (rt : runtime_Stack) (all : bool) (j : nat) :
  (j <= 46)%nat -> ~ fits rt all j ->
  getStackBuffer_loop (S fuel) rt all (capacity j)
  = getStackBuffer_loop fuel rt all (capacity (S j)).
Proof.
  intros Hj Hn; unfold fits in Hn; simpl.
  pose proof (capacity_pos j Hj) as Hp.
  destruct (capacity j <? 0) eqn:E; [apply Z.ltb_lt in E; lia|].
  destruct (rt (capacity j) all) as [buf n]; simpl in Hn.
  destruct (n <? capacity j) eqn:E'; [apply Z.ltb_lt in E'; lia|].
  reflexivity.
Qed.

(** A turn of the loop that fits returns the reported prefix. *)
Lemma getStackBuffer_loop_fit (fuel : nat) (rt : runtime_Stack) (all : bool) (j : nat) :
  (j <= 46)%nat -> fits rt all j ->
  getStackBuffer_loop (S fuel) rt all (capacity j)
  = Some (sliceTo (fst (rt (capacity j) all)) (snd (rt (capacity j) all))).
Proof.
  intros Hj Hn; unfold fits in Hn; simpl.
  pose proof (capacity_pos j Hj) as Hp.
  destruct (capacity j <? 0) eqn:E; [apply Z.ltb_lt in E; lia|].
  destruct (rt (capacity j) all) as [buf n]; simpl in *.
  destruct (n <? capacity j) eqn:E'; [reflexivity | apply Z.ltb_ge in E'; lia].
Qed.

Lemma getStackBuffer_loop_first_fit (rt : runtime_Stack) (all : bool) (d : nat) :
  forall j k fuel,
    (k = j + d)%nat -> (k <= 46)%nat -> (d < fuel)%nat ->
    (forall m, (j <= m < k)%nat -> ~ fits rt all m) ->
    fits rt all k ->
    getStackBuffer_loop fuel rt all (capacity j)
    = Some (sliceTo (fst (rt (capacity k) all)) (snd (rt (capacity k) all))).
Proof.
  induction d as [|d IH]; intros j k fuel Hk Hk46 Hf Hretry Hfit;
    (destruct fuel as [|fuel]; [lia|]).
  - replace j with k by lia. apply getStackBuffer_loop_fit; assumption.
  - rewrite getStackBuffer_loop_retry; [|lia|apply Hretry; lia].
    apply IH; try lia; [|exact Hfit].
    intros m Hm; apply Hretry; lia.
Qed.

(** The loop ends whatever the primitive answers: at the latest the length
    wraps to a negative one and [make] panics. *)
Lemma getStackBuffer_loop_total (rt : runtime_Stack) (all : bool) (d : nat) :
  forall j fuel,
    (j + d = 47)%nat -> (d < fuel)%nat ->
    exists o, getStackBuffer_loop fuel rt all (capacity j) = Some o.
Proof.
  induction d as [|d IH]; intros j fuel Hj Hf;
    (destruct fuel as [|fuel]; [lia|]).
  - replace j with 47%nat by lia. rewrite capacity_47. simpl. eauto.
  - destruct (Z.ltb_spec (snd (rt (capacity j) all)) (capacity j)) as [Hlt|Hge].
    + rewrite getStackBuffer_loop_fit; [eauto | lia | exact Hlt].
    + rewrite getStackBuffer_loop_retry; [|lia|unfold fits; lia].
      apply IH; lia.
Qed.

Lemma getStackBuffer_total (rt : runtime_Stack) (all : bool) :
  exists o, getStackBuffer rt all = Some o.
Proof.
  unfold getStackBuffer. apply (getStackBuffer_loop_total rt all 47 0%nat); lia.
Qed.

Lemma fits_below_dec (rt : runtime_Stack) (all : bool) (k : nat) :
  (exists j, (j < k)%nat /\ fits rt all j)
  \/ (forall j, (j < k)%nat -> ~ fits rt all j).
Proof.
  induction k as [|k [(j & Hj & Hf)|Hnone]].
  - right; intros j Hj; lia.
  - left; exists j; split; [lia | exact Hf].
  - destruct (Z.ltb_spec (snd (rt (capacity k) all)) (capacity k)) as [Hlt|Hge].
    + left; exists k; split; [lia | exact Hlt].
    + right; intros j Hj.
      destruct (Nat.eq_dec j k) as [->|Hne]; [unfold fits; lia | apply Hnone; lia].
Qed.

(** The attempt that fits first, when one fits. *)
Lemma first_fit (rt : runtime_Stack) (all : bool) (k : nat) :
  fits rt all k ->
  exists k', (k' <= k)%nat /\ fits rt all k'
             /\ forall j, (j < k')%nat -> ~ fits rt all j.
Proof.
  induction k as [k IH] using lt_wf_ind; intros Hk.
  destruct (fits_below_dec rt all k) as [(j & Hj & Hfit)|Hnone].
  - destruct (IH j Hj Hfit) as (k' & Hk' & Hf & Hmin).
    exists k'; repeat split; [lia | exact Hf | exact Hmin].
  - exists k; repeat split; [lia | exact Hk | exact Hnone].
Qed.

Lemma dumpRuntime_fit (dump : gostring) (all : bool) (i : Z) :
  snd (dumpRuntime dump i all) < i ->
  sliceTo (fst (dumpRuntime dump i all)) (snd (dumpRuntime dump i all)) = Returns dump.
Proof.
  unfold dumpRuntime, sliceTo, len; simpl; intros Hlt.
  assert (Hmin : Z.min (Z.of_nat (length dump)) i = Z.of_nat (length dump)) by lia.
  rewrite Hmin, Nat2Z.id.
  destruct (Z.of_nat (length dump) <? 0) eqn:E; [apply Z.ltb_lt in E; lia|].
  rewrite firstn_all, firstn_app, firstn_all, Nat.sub_diag; simpl.
  rewrite app_nil_r; reflexivity.
Qed.

(** C5.  [getStackBuffer] starts with a buffer of [_defaultBufferSize] bytes
    and doubles it at each attempt.  When some attempt of the doubling
    sequence fits (the primitive reports fewer bytes than the buffer holds),
    the loop ends at the first such attempt [k']: every attempt before it
    reported at least the length of its buffer and was retried with twice
    that length, and the value returned is exactly the reported prefix of the
    buffer of attempt [k'].  For a primitive that writes as much of a dump as
    the buffer takes, that value is the whole dump. *)
Theorem getStackBuffer_first_fit (rt : runtime_Stack) (all : bool) (k : nat) :
  (k <= 46)%nat ->
  (forall j, (j <= k)%nat -> 0 <= snd (rt (capacity j) all)) ->
  fits rt all k ->
  exists k',
    (k' <= k)%nat
    /\ (forall j, (j <= k')%nat -> capacity j = _defaultBufferSize * 2 ^ Z.of_nat j)
    /\ (forall j, (j < k')%nat -> capacity j <= snd (rt (capacity j) all))
    /\ snd (rt (capacity k') all) < capacity k'
    /\ getStackBuffer rt all
       = Some (Returns (firstn (Z.to_nat (snd (rt (capacity k') all)))
                               (fst (rt (capacity k') all))))
    /\ (forall dump,
           (forall i, rt i all = dumpRuntime dump i all) ->
           getStackBuffer rt all = Some (Returns dump)).
Proof.
  intros Hk Hnonneg Hfit.
  destruct (first_fit rt all k Hfit) as (k' & Hk' & Hfit' & Hmin).
  assert (Hrun : getStackBuffer rt all
                 = Some (sliceTo (fst (rt (capacity k') all)) (snd (rt (capacity k') all)))).
  { unfold getStackBuffer. change _defaultBufferSize with (capacity 0).
    apply (getStackBuffer_loop_first_fit rt all k' 0%nat k'); try lia; try assumption.
    intros m Hm; apply Hmin; lia. }
  exists k'; repeat split.
  - exact Hk'.
  - intros j Hj. rewrite capacity_pow by lia.
    unfold _defaultBufferSize. rewrite Z.pow_add_r by lia. reflexivity.
  - intros j Hj. specialize (Hmin j Hj). unfold fits in Hmin. lia.
  - exact Hfit'.
  - rewrite Hrun. unfold sliceTo.
    specialize (Hnonneg k' Hk').
    destruct (snd (rt (capacity k') all) <? 0) eqn:E; [apply Z.ltb_lt in E; lia|].
    reflexivity.
  - intros dump Hrt. rewrite Hrun.
    unfold fits in Hfit'. rewrite Hrt in *.
    rewrite dumpRuntime_fit by exact Hfit'. reflexivity.
Qed.

Lemma getStackBuffer_first_fit_witness :
  exists k',
    (k' <= 0)%nat
    /\ (forall j, (j <= k')%nat -> capacity j = _defaultBufferSize * 2 ^ Z.of_nat j)
    /\ (forall j, (j < k')%nat ->
                  capacity j <= snd (dumpRuntime $"goroutine" (capacity j) true))
    /\ snd (dumpRuntime $"goroutine" (capacity k') true) < capacity k'
    /\ getStackBuffer (dumpRuntime $"goroutine") true
       = Some (Returns (firstn (Z.to_nat (snd (dumpRuntime $"goroutine" (capacity k') true)))
                               (fst (dumpRuntime $"goroutine" (capacity k') true))))
    /\ (forall dump,
           (forall i, dumpRuntime $"goroutine" i true = dumpRuntime dump i true) ->
           getStackBuffer (dumpRuntime $"goroutine") true = Some (Returns dump)).
Proof.
  apply (getStackBuffer_first_fit (dumpRuntime $"goroutine") true 0%nat).
  - lia.
  - intros j Hj. replace j with 0%nat by lia. vm_compute. discriminate.
  - vm_compute. reflexivity.
Defined.

(** ** The parser on arbitrary text *)

Lemma getStacks_parse (rt : runtime_Stack) (all : bool) (buf : gostring) :
  getStackBuffer rt all = Some (Returns buf) ->
  getStacks rt all = parse buf.
Proof.
  intros Hb; unfold getStacks, parse; rewrite Hb.
  destruct (scan buf) as [[stacks cur|r]|]; reflexivity.
Qed.

Lemma parse_lines (lines : list gostring) (tail : gostring) :
  Forall is_line lines -> ~ In nl tail ->
  parse (concat lines ++ tail) = Some (conclude (scanLines lines [] None)).
Proof.
  intros Hl Ht; unfold parse; rewrite scan_lines by assumption; reflexivity.
Qed.

(** The parser is total: the fuel never runs out. *)
Lemma parse_total (buf : gostring) : exists r, parse buf = Some r.
Proof. unfold parse; rewrite scan_splitLines; simpl; eauto. Qed.

Lemma getStacks_total (rt : runtime_Stack) (all : bool) :
  exists r, getStacks rt all = Some r.
Proof.
  destruct (getStackBuffer_total rt all) as [[buf|p] Hb].
  - rewrite (getStacks_parse rt all buf Hb). apply parse_total.
  - unfold getStacks; rewrite Hb; eauto.
Qed.

Lemma scanLines_app (a b : list gostring) (stacks : list Stack) (cur : option Stack) :
  scanLines (a ++ b) stacks cur
  = match scanLines a stacks cur with
    | Continue stacks' cur' => scanLines b stacks' cur'
    | Done r => Done r
    end.
Proof.
  revert stacks cur; induction a as [|l a IH]; intros stacks cur; simpl.
  - reflexivity.
  - destruct (scanLine l stacks cur) as [stacks' cur'|r]; [apply IH | reflexivity].
Qed.

(** A text that starts with complete lines: these lines, then the lines of
    the rest. *)
Lemma splitLines_app (pre : list gostring) (rest : gostring) :
  Forall is_line pre ->
  splitLines (concat pre ++ rest)
  = (pre ++ fst (splitLines rest), snd (splitLines rest)).
Proof.
  intros Hp.
  destruct (splitLines_spec rest) as (Hr & Hl & Ht).
  rewrite Hr at 1.
  rewrite app_assoc, <- concat_app.
  apply splitLines_lines; [|exact Ht].
  apply Forall_app; split; assumption.
Qed.

Lemma parse_app (pre : list gostring) (rest : gostring) :
  Forall is_line pre ->
  parse (concat pre ++ rest)
  = Some (conclude (scanLines (pre ++ fst (splitLines rest)) [] None)).
Proof.
  intros Hp. unfold parse. rewrite scan_splitLines, splitLines_app by exact Hp.
  reflexivity.
Qed.

Lemma complete_lines (s : gostring) :
  complete s -> snd (splitLines s) = [].
Proof.
  intros [->|[s' ->]]; [reflexivity|].
  destruct (splitLines_spec s') as (Hs & Hl & Ht).
  rewrite Hs, <- app_assoc.
  replace (concat (fst (splitLines s')) ++ snd (splitLines s') ++ [nl])
    with (concat (fst (splitLines s') ++ [snd (splitLines s') ++ [nl]]) ++ []).
  - rewrite splitLines_lines; [reflexivity | | intros []].
    apply Forall_app; split; [exact Hl|].
    constructor; [|constructor]. eexists; split; [reflexivity | exact Ht].
  - rewrite concat_app; simpl. rewrite !app_nil_r. reflexivity.
Qed.

(** C9.  When the first line of the dump is not a goroutine header,
    [getStacks] neither returns stacks nor an error: it panics on the nil
    [curStack] that the line is written to.  So a [getStacks] that returns
    has read a header as the first line of its input. *)
Theorem getStacks_first_line_not_header
        (rt : runtime_Stack) (all : bool) (line rest : gostring) :
  getStackBuffer rt all = Some (Returns (line ++ rest)) ->
  is_line line ->
  (HasPrefix line $"goroutine " = false ->
   getStacks rt all = Some (Panics nilDereference))
  /\ (forall out, getStacks rt all = Some (Returns out) ->
                  HasPrefix line $"goroutine " = true).
Proof.
  intros Hb Hl.
  assert (Hrun : getStacks rt all
                 = Some (conclude (scanLines ([line] ++ fst (splitLines rest)) [] None))).
  { rewrite (getStacks_parse rt all _ Hb).
    rewrite <- (parse_app [line] rest) by (constructor; [exact Hl | constructor]).
    simpl. rewrite app_nil_r. reflexivity. }
  assert (Hpanic : HasPrefix line $"goroutine " = false ->
                   getStacks rt all = Some (Panics nilDereference)).
  { intros Hp. rewrite Hrun. simpl. unfold scanLine. rewrite Hp. reflexivity. }
  split; [exact Hpanic|].
  intros out Hout.
  destruct (HasPrefix line $"goroutine ") eqn:Hp; [reflexivity|].
  rewrite (Hpanic eq_refl) in Hout. discriminate.
Qed.

Lemma splitLines_no_line (tail : gostring) :
  ~ In nl tail -> splitLines tail = ([], tail).
Proof. intros Ht. apply (splitLines_lines [] tail); [constructor | exact Ht]. Qed.

(** Once a header was read there is a current stack. *)
Lemma scanLine_Continue (line : gostring) (stacks stacks' : list Stack)
      (cur cur' : option Stack) :
  scanLine line stacks cur = Continue stacks' cur' ->
  exists c, cur' = Some c
            /\ length (flush stacks' cur')
               = (length (flush stacks cur) + if isHeader line then 1 else 0)%nat.
Proof.
  unfold scanLine, isHeader.
  destruct (HasPrefix line $"goroutine ") eqn:Hp.
  - destruct (parseGoStackHeader line) as [[i st] [e|]]; [discriminate|].
    unfold appendLine; simpl. intros H; inversion H; subst.
    eexists; split; [reflexivity|]. simpl. rewrite length_app. reflexivity.
  - unfold appendLine. destruct cur as [c|]; [|discriminate].
    destruct (negb false && _).
    + destruct (parseFirstFunc line) as [f|p]; [|discriminate].
      intros H; inversion H; subst. eexists; split; [reflexivity|].
      simpl. rewrite !length_app. simpl. lia.
    + intros H; inversion H; subst. eexists; split; [reflexivity|].
      simpl. rewrite !length_app. simpl. lia.
Qed.

(** A scan that reaches the end of its lines holds one stack for each header
    it read. *)
Lemma scanLines_count (lines : list gostring) :
  forall stacks cur stacks' cur',
    scanLines lines stacks cur = Continue stacks' cur' ->
    length (flush stacks' cur')
    = (length (flush stacks cur) + length (filter isHeader lines))%nat.
Proof.
  induction lines as [|l lines IH]; intros stacks cur stacks' cur' H; simpl in *.
  - inversion H; subst. lia.
  - destruct (scanLine l stacks cur) as [s1 c1|r] eqn:E; [|discriminate].
    apply scanLine_Continue in E. destruct E as (c & _ & Hlen).
    rewrite (IH _ _ _ _ H), Hlen.
    destruct (isHeader l); simpl; lia.
Qed.

(** A scan that leaves [getStacks] early panics or returns an error and no
    stacks. *)
Lemma scanLine_Done (line : gostring) (stacks : list Stack) (cur : option Stack) (r : result) :
  scanLine line stacks cur = Done r ->
  (exists p, r = Panics p) \/ (exists e, r = Returns ([], Some e)).
Proof.
  unfold scanLine.
  destruct (HasPrefix line $"goroutine ").
  - destruct (parseGoStackHeader line) as [[i st] [e|]].
    + intros H; inversion H; subst. right; eauto.
    + unfold appendLine; simpl. discriminate.
  - unfold appendLine. destruct cur as [c|].
    + destruct (negb false && _).
      * destruct (parseFirstFunc line) as [f|p]; [discriminate|].
        intros H; inversion H; subst. left; eauto.
      * discriminate.
    + intros H; inversion H; subst. left; eauto.
Qed.

Lemma scanLines_Done (lines : list gostring) :
  forall stacks cur r,
    scanLines lines stacks cur = Done r ->
    (exists p, r = Panics p) \/ (exists e, r = Returns ([], Some e)).
Proof.
  induction lines as [|l lines IH]; intros stacks cur r H; simpl in *.
  - discriminate.
  - destruct (scanLine l stacks cur) as [s1 c1|r1] eqn:E.
    + exact (IH _ _ _ H).
    + inversion H; subst. exact (scanLine_Done _ _ _ _ E).
Qed.

Lemma getStacks_end_empty (stacks : list Stack) (cur : option Stack) :
  flush stacks cur = [] ->
  getStacks_end stacks cur = Returns ([], Some errNoStacks).
Proof. unfold getStacks_end; intros ->; reflexivity. Qed.

Lemma getStacks_end_nonempty (stacks : list Stack) (cur : option Stack) :
  flush stacks cur <> [] ->
  getStacks_end stacks cur = Returns (flush stacks cur, None).
Proof.
  unfold getStacks_end; intros Hne.
  destruct (flush stacks cur) as [|s l]; [congruence | reflexivity].
Qed.

(** What a successful [getStacks] returns is the state of a scan that
    reached the end of the lines. *)
Lemma conclude_success (lines : list gostring) (stacks : list Stack) :
  conclude (scanLines lines [] None) = Returns (stacks, None) ->
  exists stacks' cur',
    scanLines lines [] None = Continue stacks' cur'
    /\ stacks = flush stacks' cur' /\ stacks <> [].
Proof.
  destruct (scanLines lines [] None) as [s c|r] eqn:E; simpl.
  - intros H. exists s, c. split; [reflexivity|].
    unfold getStacks_end in H.
    destruct (flush s c) as [|x l]; simpl in H; [discriminate|].
    inversion H; subst. split; [reflexivity | discriminate].
  - intros ->. apply scanLines_Done in E.
    destruct E as [(p & Hp)|(e & He)]; discriminate.
Qed.

(** C6.  When the scan of the lines ends with no record, neither flushed nor
    current, [getStacks] returns [errNoStacks] and no stacks.  The inputs on
    which that happens are those that hold no line feed, the empty input
    among them. *)
Theorem getStacks_no_records (rt : runtime_Stack) (all : bool) (buf : gostring) :
  getStackBuffer rt all = Some (Returns buf) ->
  (forall stacks cur,
      scan buf = Some (Continue stacks cur) -> flush stacks cur = [] ->
      getStacks rt all = Some (Returns ([], Some errNoStacks)))
  /\ ((exists stacks cur, scan buf = Some (Continue stacks cur) /\ flush stacks cur = [])
      <-> ~ In nl buf)
  /\ (buf = [] -> getStacks rt all = Some (Returns ([], Some errNoStacks))).
Proof.
  intros Hb.
  assert (H1 : forall stacks cur,
             scan buf = Some (Continue stacks cur) -> flush stacks cur = [] ->
             getStacks rt all = Some (Returns ([], Some errNoStacks))).
  { intros stacks cur Hs Hf.
    rewrite (getStacks_parse rt all buf Hb). unfold parse. rewrite Hs. simpl.
    rewrite getStacks_end_empty by exact Hf. reflexivity. }
  assert (H2 : ~ In nl buf -> scan buf = Some (Continue [] None)).
  { intros Hn. rewrite scan_splitLines, splitLines_no_line by exact Hn. reflexivity. }
  split; [exact H1|]. split.
  - split.
    + intros (stacks & cur & Hs & Hf).
      rewrite scan_splitLines in Hs. inversion Hs as [Hs']. clear Hs.
      destruct (splitLines_spec buf) as (Hbuf & Hl & Ht).
      pose proof (scanLines_count _ _ _ _ _ Hs') as Hc.
      rewrite Hf in Hc. simpl in Hc.
      destruct (fst (splitLines buf)) as [|l ls] eqn:El.
      * rewrite Hbuf. simpl. exact Ht.
      * exfalso. simpl in Hs', Hc.
        destruct (scanLine l [] None) as [s1 c1|r] eqn:E; [|discriminate].
        unfold scanLine in E. fold (isHeader l) in E.
        destruct (isHeader l); [simpl in Hc; lia|].
        simpl in E. discriminate.
    + intros Hn. exists [], None. split; [exact (H2 Hn) | reflexivity].
  - intros ->. apply (H1 [] None); [apply H2; intros [] | reflexivity].
Qed.

(** C10.  Text after the last line feed is dropped: what [getStacks] returns
    for a dump that ends in an unterminated segment is what it returns for
    the dump without that segment.  The segment is written to no stack,
    starts no stack and is never handed to the header or first-function
    parsers. *)
Theorem getStacks_ignores_unterminated_tail
        (rt : runtime_Stack) (all : bool) (s tail : gostring) :
  getStackBuffer rt all = Some (Returns (s ++ tail)) ->
  complete s ->
  ~ In nl tail ->
  getStacks rt all = parse s
  /\ getStacks rt all = Some (conclude (scanLines (fst (splitLines s)) [] None)).
Proof.
  intros Hb Hc Ht.
  destruct (splitLines_spec s) as (Hs & Hl & _).
  rewrite (complete_lines s Hc), app_nil_r in Hs.
  assert (Hp : parse s = Some (conclude (scanLines (fst (splitLines s)) [] None))).
  { unfold parse. rewrite scan_splitLines. reflexivity. }
  rewrite Hp. split; rewrite (getStacks_parse rt all _ Hb).
  - rewrite Hs at 1. apply parse_lines; [exact Hl | exact Ht].
  - rewrite Hs at 1. apply parse_lines; [exact Hl | exact Ht].
Qed.

(** A successful [getStacks] returns one stack for each header line of the
    dump. *)
Lemma getStacks_length (rt : runtime_Stack) (all : bool) (buf : gostring)
      (stacks : list Stack) :
  getStackBuffer rt all = Some (Returns buf) ->
  getStacks rt all = Some (Returns (stacks, None)) ->
  length stacks = headerCount buf.
Proof.
  intros Hb Hg.
  rewrite (getStacks_lines rt all buf Hb) in Hg. inversion Hg as [Hc]. clear Hg.
  apply conclude_success in Hc. destruct Hc as (s' & c' & Hs & -> & _).
  apply scanLines_count in Hs. exact Hs.
Qed.

(** C8.  [Current] captures with [all = false], so the dump holds the
    calling goroutine alone: one header line.  Whenever [Current] succeeds
    on such a dump, the stacks that [getStacks] parsed are exactly one, and
    it is the one [Current] returns. *)
Theorem Current_single_record (rt : runtime_Stack) (buf : gostring) (s : Stack) :
  getStackBuffer rt false = Some (Returns buf) ->
  headerCount buf = 1%nat ->
  Current rt = Some (Returns (s, None)) ->
  getStacks rt false = Some (Returns ([s], None)).
Proof.
  intros Hb Hc Hcur. unfold Current in Hcur.
  destruct (getStacks rt false) as [[[stacks [e|]]|p]|] eqn:Hg; try discriminate.
  pose proof (getStacks_length rt false buf stacks Hb Hg) as Hlen.
  rewrite Hc in Hlen.
  destruct stacks as [|x [|y l]]; simpl in Hlen; try discriminate.
  inversion Hcur; subst. reflexivity.
Qed.

(** ** The first function of a record *)

Lemma parseFirstFunc_Returns (line f : gostring) :
  parseFirstFunc line = Returns f <-> firstFunctionOf line f.
Proof.
  unfold parseFirstFunc, firstFunctionOf; cbv zeta.
  destruct (Z.ltb_spec 0 (LastIndex (TrimSpace line) $"(")) as [E|E].
  - split.
    + intros H; inversion H; subst. split; [exact E | reflexivity].
    + intros [_ ->]. reflexivity.
  - split; [discriminate | intros [H _]; lia].
Qed.

Lemma parseFirstFunc_Panics (line : gostring) :
  LastIndex (TrimSpace line) $"(" <= 0 ->
  parseFirstFunc line
  = Panics (panicSprintf $"function calls missing parents: %q" [TrimSpace line]).
Proof.
  intros H. unfold parseFirstFunc; cbv zeta.
  destruct (Z.ltb_spec 0 (LastIndex (TrimSpace line) $"(")) as [E|E];
    [lia | reflexivity].
Qed.

Lemma firstFunctionOf_nonempty (line f : gostring) :
  firstFunctionOf line f -> f <> [].
Proof.
  unfold firstFunctionOf; cbv zeta. intros [Hpos ->].
  destruct (TrimSpace line) as [|c t]; [vm_compute in Hpos; discriminate|].
  destruct (Z.to_nat (LastIndex (c :: t) $"(")) eqn:E; [lia | discriminate].
Qed.

Lemma gostring_eqb_nil (f : gostring) : gostring_eqb f [] = true <-> f = [].
Proof.
  unfold gostring_eqb. destruct (list_eq_dec ascii_dec f []); split; congruence.
Qed.

Lemma flush_Forall (P : Stack -> Prop) (stacks : list Stack) (cur : option Stack) :
  Forall P stacks -> (forall c, cur = Some c -> P c) -> Forall P (flush stacks cur).
Proof.
  intros Hs Hc. destruct cur as [c|]; simpl; [|exact Hs].
  apply Forall_app; split; [exact Hs|]. constructor; [apply Hc; reflexivity | constructor].
Qed.

Lemma scanLine_shape (line : gostring) (stacks stacks' : list Stack)
      (cur cur' : option Stack) :
  is_line line ->
  Forall recordShape stacks -> (forall c, cur = Some c -> recordShape c) ->
  scanLine line stacks cur = Continue stacks' cur' ->
  Forall recordShape stacks' /\ (forall c, cur' = Some c -> recordShape c).
Proof.
  intros Hl Hs Hc. unfold scanLine.
  destruct (HasPrefix line $"goroutine ") eqn:Hp.
  - destruct (parseGoStackHeader line) as [[i st] [e|]]; [discriminate|].
    unfold appendLine; simpl. intros H; inversion H; subst.
    split; [apply flush_Forall; assumption|].
    intros c Ec; inversion Ec; subst.
    refine (ex_intro _ line (ex_intro _ []
              (conj _ (conj Hl (conj Hp (conj (Forall_nil _) eq_refl)))))).
    simpl. rewrite app_nil_r. reflexivity.
  - unfold appendLine. destruct cur as [c|]; [|discriminate].
    destruct (Hc c eq_refl) as (h & bs & Hfull & Hh & Hhp & Hbs & Hff).
    assert (Hbody : bodyLine line) by (split; assumption).
    simpl. destruct (gostring_eqb (firstFunction c) []) eqn:Eff.
    + apply gostring_eqb_nil in Eff.
      destruct (parseFirstFunc line) as [f|p] eqn:Ef; [|discriminate].
      intros H; inversion H; subst. split; [exact Hs|].
      intros c' Ec; inversion Ec; subst.
      destruct bs as [|b bs].
      * refine (ex_intro _ h (ex_intro _ [line] (conj _ (conj Hh (conj Hhp (conj _ _)))))).
        -- simpl. rewrite Hfull. simpl. rewrite !app_nil_r. reflexivity.
        -- constructor; [exact Hbody | constructor].
        -- apply parseFirstFunc_Returns, Ef.
      * exfalso. apply (firstFunctionOf_nonempty _ _ Hff). exact Eff.
    + intros H; inversion H; subst. split; [exact Hs|].
      intros c' Ec; inversion Ec; subst.
      refine (ex_intro _ h (ex_intro _ (bs ++ [line])
                (conj _ (conj Hh (conj Hhp (conj _ _)))))).
      * simpl. rewrite Hfull, concat_app. simpl.
        rewrite app_nil_r, app_assoc. reflexivity.
      * apply Forall_app; split; [exact Hbs | constructor; [exact Hbody | constructor]].
      * destruct bs as [|b bs]; simpl in *; [|exact Hff].
        apply gostring_eqb_nil in Hff. congruence.
Qed.

Lemma scanLines_shape (lines : list gostring) :
  Forall is_line lines ->
  forall stacks cur stacks' cur',
    Forall recordShape stacks -> (forall c, cur = Some c -> recordShape c) ->
    scanLines lines stacks cur = Continue stacks' cur' ->
    Forall recordShape stacks' /\ (forall c, cur' = Some c -> recordShape c).
Proof.
  induction 1 as [|l lines Hl _ IH]; intros stacks cur stacks' cur' Hs Hc H; simpl in H.
  - inversion H; subst. split; assumption.
  - destruct (scanLine l stacks cur) as [s1 c1|r] eqn:E; [|discriminate].
    destruct (scanLine_shape _ _ _ _ _ Hl Hs Hc E) as [Hs1 Hc1].
    exact (IH _ _ _ _ Hs1 Hc1 H).
Qed.

(** C4, as the code has it.  Every record that [getStacks] returns is the
    text of one header line and of the body lines after it; when it has a
    body line, its first function is the trimmed text of the first body line
    cut at the last opening parenthesis, which is at a positive offset, and
    a record without a body line has the empty first function. *)
Theorem getStacks_firstFunction
        (rt : runtime_Stack) (all : bool) (buf : gostring) (stacks : list Stack) :
  getStackBuffer rt all = Some (Returns buf) ->
  getStacks rt all = Some (Returns (stacks, None)) ->
  Forall recordShape stacks.
Proof.
  intros Hb Hg.
  rewrite (getStacks_lines rt all buf Hb) in Hg. inversion Hg as [Hc]. clear Hg.
  apply conclude_success in Hc. destruct Hc as (s' & c' & Hs & -> & _).
  destruct (splitLines_spec buf) as (_ & Hl & _).
  destruct (scanLines_shape _ Hl [] None s' c') as [H1 H2];
    [constructor | discriminate | exact Hs |].
  apply flush_Forall; assumption.
Qed.

(** ** Header lines *)

Lemma firstn_length_app (a b : gostring) : firstn (length a) (a ++ b) = a.
Proof.
  rewrite firstn_app, firstn_all, Nat.sub_diag; simpl. apply app_nil_r.
Qed.

Lemma skipn_length_app (a b : gostring) (n : nat) :
  skipn (length a + n) (a ++ b) = skipn n b.
Proof.
  rewrite skipn_app, skipn_all2 by lia.
  replace (length a + n - length a)%nat with n by lia. reflexivity.
Qed.

Lemma genSplit_S (s sep : gostring) (n : nat) :
  genSplit s sep (S n)
  = match Index s sep with
    | None => [s]
    | Some m => firstn m s :: genSplit (skipn (m + length sep) s) sep n
    end.
Proof. reflexivity. Qed.

(** The three fields of a line that has two spaces after two fields without
    one. *)
Lemma SplitN_three (a b c : gostring) :
  ~ In " "%char a -> ~ In " "%char b ->
  SplitN (a ++ " "%char :: b ++ " "%char :: c) $" " 3 = [a; b; c].
Proof.
  intros Ha Hb. unfold SplitN.
  rewrite genSplit_S.
  change (list_ascii_of_string " ") with [" "%char].
  rewrite (Index_char_found " "%char a _ Ha).
  rewrite firstn_length_app, skipn_length_app. simpl skipn.
  rewrite genSplit_S.
  rewrite (Index_char_found " "%char b _ Hb).
  rewrite firstn_length_app, skipn_length_app. reflexivity.
Qed.

(** Fewer than three fields when the second field runs to the end. *)
Lemma SplitN_two (a b : gostring) :
  ~ In " "%char a -> ~ In " "%char b ->
  SplitN (a ++ " "%char :: b) $" " 3 = [a; b].
Proof.
  intros Ha Hb. unfold SplitN.
  rewrite genSplit_S.
  change (list_ascii_of_string " ") with [" "%char].
  rewrite (Index_char_found " "%char a _ Ha).
  rewrite firstn_length_app, skipn_length_app. simpl skipn.
  rewrite genSplit_S.
  rewrite (Index_char_none " "%char b Hb). reflexivity.
Qed.

(** What [parseGoStackHeader] makes of a line of the header shape, whatever
    stands for the id. *)
Lemma parseGoStackHeader_shape (idText st : gostring) :
  ~ In " "%char idText ->
  parseGoStackHeader ($"goroutine " ++ idText ++ $" [" ++ st ++ $"]:" ++ [nl])
  = match strconv.Atoi idText with
    | (_, Some _) =>
        (0, [], Some (fmt_Errorf $"failed to parse goroutine ID: %v in line %q"
                                 [idText; $"goroutine " ++ idText ++ $" [" ++ st ++ $"]"]))
    | (n, None) => (n, st, None)
    end.
Proof.
  intros Hid. unfold parseGoStackHeader.
  assert (E : $"goroutine " ++ idText ++ $" [" ++ st ++ $"]:" ++ [nl]
              = ($"goroutine " ++ idText ++ $" [" ++ st ++ $"]") ++ ":"%char :: [nl]).
  { simpl. rewrite <- !app_assoc. simpl. rewrite <- !app_assoc. reflexivity. }
  rewrite E, TrimSuffix_app. cbv zeta.
  assert (E2 : $"goroutine " ++ idText ++ $" [" ++ st ++ $"]"
               = $"goroutine" ++ " "%char :: idText ++ " "%char :: ($"[" ++ st ++ $"]")).
  { reflexivity. }
  rewrite E2 at 1.
  rewrite SplitN_three; [|simpl; intuition discriminate | exact Hid].
  destruct (strconv.Atoi idText) as [n [e|]].
  - rewrite E2. reflexivity.
  - rewrite TrimPrefix_app, TrimSuffix_app. reflexivity.
Qed.

(** ** Decimal numerals *)

Lemma digitChar_spec (d : nat) :
  (d < 10)%nat ->
  strconv.digit (digitChar d) = Some (Z.of_nat d)
  /\ Ascii.eqb (digitChar d) "-" = false
  /\ Ascii.eqb (digitChar d) "+" = false
  /\ digitChar d <> " "%char
  /\ digitChar d <> nl.
Proof.
  intros Hd.
  do 10 (destruct d as [|d];
         [repeat split; try reflexivity; intros H; discriminate H|]).
  lia.
Qed.

Lemma digits_map (ds : list nat) :
  Forall (fun d => (d < 10)%nat) ds ->
  forall acc,
    strconv.digits (map digitChar ds) acc
    = Some (fold_left (fun acc d => acc * 10 + Z.of_nat d) ds acc).
Proof.
  induction 1 as [|d ds Hd _ IH]; intros acc; [reflexivity|].
  change (strconv.digits (map digitChar (d :: ds)) acc)
    with (match strconv.digit (digitChar d) with
          | Some v => strconv.digits (map digitChar ds) (acc * 10 + v)
          | None => None
          end).
  destruct (digitChar_spec d Hd) as (-> & _). apply IH.
Qed.

Lemma fold_decimal_nonneg (ds : list nat) :
  forall acc, 0 <= acc -> 0 <= fold_left (fun acc d => acc * 10 + Z.of_nat d) ds acc.
Proof.
  induction ds as [|d ds IH]; intros acc Hacc; simpl; [exact Hacc|].
  apply IH. lia.
Qed.

(** [Atoi] reads a decimal numeral of an [int] as its number. *)
Lemma Atoi_decimal (ds : list nat) :
  ds <> [] ->
  Forall (fun d => (d < 10)%nat) ds ->
  decimal ds <= strconv.maxInt ->
  strconv.Atoi (map digitChar ds) = (decimal ds, None).
Proof.
  intros Hne Hds Hmax.
  destruct ds as [|d ds]; [congruence|].
  pose proof (digits_map (d :: ds) Hds 0) as Hdig.
  inversion Hds as [|? ? Hd _]; subst.
  destruct (digitChar_spec d Hd) as (_ & Hminus & Hplus & _).
  unfold strconv.Atoi.
  change (map digitChar (d :: ds)) with (digitChar d :: map digitChar ds) in *.
  cbv beta iota. rewrite Hminus, Hplus. cbv beta iota. rewrite Hdig.
  fold (decimal (d :: ds)).
  pose proof (fold_decimal_nonneg (d :: ds) 0 ltac:(lia)) as Hnn.
  fold (decimal (d :: ds)) in Hnn.
  destruct (decimal (d :: ds) <? strconv.minInt) eqn:E1.
  { apply Z.ltb_lt in E1. unfold strconv.minInt in E1. lia. }
  destruct (strconv.maxInt <? decimal (d :: ds)) eqn:E2.
  { apply Z.ltb_lt in E2. lia. }
  reflexivity.
Qed.

Lemma digitChars_clean (ds : list nat) (c : ascii) :
  Forall (fun d => (d < 10)%nat) ds ->
  In c (map digitChar ds) -> c <> " "%char /\ c <> nl.
Proof.
  intros Hds Hin. apply in_map_iff in Hin. destruct Hin as (d & <- & Hd).
  rewrite Forall_forall in Hds.
  destruct (digitChar_spec d (Hds d Hd)) as (_ & _ & _ & H1 & H2). split; assumption.
Qed.

Lemma noLineFeed_spec (s : gostring) : noLineFeed s = true -> ~ In nl s.
Proof.
  unfold noLineFeed. intros H Hin.
  apply negb_true_iff in H.
  assert (existsb (Ascii.eqb nl) s = true).
  { apply existsb_exists. exists nl. split; [exact Hin | apply eqb_refl_ascii]. }
  congruence.
Qed.

(** ** Well-formed records *)

Lemma wellFormed_parts (g : goroutine) :
  wellFormed g = true ->
  idDigits g <> []
  /\ Forall (fun d => (d < 10)%nat) (idDigits g)
  /\ decimal (idDigits g) <= strconv.maxInt
  /\ ~ In nl (goState g)
  /\ Forall (fun f => ~ In nl f /\ isHeader (f ++ [nl]) = false) (frames g)
  /\ exists f fs, frames g = f :: fs
                  /\ 0 < LastIndex (TrimSpace (f ++ [nl])) $"(".
Proof.
  intros Hwf. unfold wellFormed in Hwf.
  apply andb_prop in Hwf; destruct Hwf as [Hwf Hparen].
  apply andb_prop in Hwf; destruct Hwf as [Hwf Hframes].
  apply andb_prop in Hwf; destruct Hwf as [Hwf Hstate].
  apply andb_prop in Hwf; destruct Hwf as [Hwf Hmax].
  apply andb_prop in Hwf; destruct Hwf as [Hne Hdigits].
  split; [destruct (idDigits g); [discriminate Hne | discriminate]|].
  split.
  { apply Forall_forall. intros d Hd.
    rewrite forallb_forall in Hdigits. apply Nat.ltb_lt, Hdigits, Hd. }
  split; [apply Z.leb_le; exact Hmax|].
  split; [apply noLineFeed_spec; exact Hstate|].
  split.
  { apply Forall_forall. intros f Hf.
    rewrite forallb_forall in Hframes. specialize (Hframes f Hf).
    apply andb_prop in Hframes; destruct Hframes as [H1 H2].
    split; [apply noLineFeed_spec; exact H1 | apply negb_true_iff; exact H2]. }
  destruct (frames g) as [|f fs]; [discriminate Hparen|].
  exists f, fs. split; [reflexivity | apply Z.ltb_lt; exact Hparen].
Qed.

Section WellFormed.

Variable g : goroutine.
Hypothesis Hwf : wellFormed g = true.

Lemma headerLine_is_line : is_line (headerLine g).
Proof.
  destruct (wellFormed_parts g Hwf) as (_ & Hds & _ & Hst & _).
  exists ($"goroutine " ++ map digitChar (idDigits g) ++ $" [" ++ goState g ++ $"]:").
  split.
  - unfold headerLine. rewrite <- !app_assoc. reflexivity.
  - intros Hin.
    repeat (apply in_app_or in Hin; destruct Hin as [Hin|Hin]).
    + simpl in Hin. intuition discriminate.
    + destruct (digitChars_clean _ _ Hds Hin) as [_ H]. congruence.
    + simpl in Hin. intuition discriminate.
    + exact (Hst Hin).
    + simpl in Hin. intuition discriminate.
Qed.

Lemma headerLine_isHeader : isHeader (headerLine g) = true.
Proof. unfold isHeader, headerLine. apply HasPrefix_app. Qed.

Lemma headerLine_parse :
  parseGoStackHeader (headerLine g) = (decimal (idDigits g), goState g, None).
Proof.
  destruct (wellFormed_parts g Hwf) as (Hne & Hds & Hmax & _).
  unfold headerLine. rewrite parseGoStackHeader_shape.
  - rewrite Atoi_decimal by assumption. reflexivity.
  - intros Hin. destruct (digitChars_clean _ _ Hds Hin) as [H _]. congruence.
Qed.

Lemma bodyLines_lines : Forall bodyLine (bodyLines g).
Proof.
  destruct (wellFormed_parts g Hwf) as (_ & _ & _ & _ & Hfs & _).
  unfold bodyLines. apply Forall_map.
  eapply Forall_impl; [|exact Hfs]. intros f [Hn Hh].
  split; [exists f; split; [reflexivity | exact Hn] | exact Hh].
Qed.

(** The lines after the first body line are written to the stack and
    nothing else happens. *)
Lemma scanLines_later_bodies (bodies : list gostring) :
  Forall bodyLine bodies ->
  forall more stacks i st f full,
    f <> [] ->
    scanLines (bodies ++ more) stacks (Some (mkStack i st f full))
    = scanLines more stacks (Some (mkStack i st f (full ++ concat bodies))).
Proof.
  induction 1 as [|b bodies [_ Hb] _ IH]; intros more stacks i st f full Hf.
  - cbn [concat app]. rewrite app_nil_r. reflexivity.
  - change ((b :: bodies) ++ more) with (b :: (bodies ++ more)).
    cbn [scanLines concat].
    unfold scanLine. unfold isHeader in Hb. rewrite Hb.
    unfold appendLine.
    cbn [negb andb id state firstFunction fullStack].
    destruct (gostring_eqb f []) eqn:E; [apply gostring_eqb_nil in E; congruence|].
    cbv iota.
    rewrite IH by exact Hf. rewrite <- app_assoc. reflexivity.
Qed.

(** The scan of the lines of a well-formed record flushes the stack before
    it and leaves the stack of the record as the current one. *)
Lemma scanLines_record (more : list gostring) (stacks : list Stack) (cur : option Stack) :
  scanLines ((headerLine g :: bodyLines g) ++ more) stacks cur
  = scanLines more (flush stacks cur) (Some (stackOf g)).
Proof.
  pose proof bodyLines_lines as Hbodies.
  destruct (wellFormed_parts g Hwf) as (_ & _ & _ & _ & _ & f & fs & Hframes & Hparen).
  pose proof headerLine_isHeader as Hh. unfold isHeader in Hh.
  pose proof headerLine_parse as Hparse.
  unfold stackOf, render, bodyLines in *. rewrite Hframes in *.
  remember (headerLine g) as h eqn:Eh. clear Eh.
  change (map (fun f => f ++ [nl]) (f :: fs))
    with ((f ++ [nl]) :: map (fun f => f ++ [nl]) fs) in *.
  remember (map (fun f => f ++ [nl]) fs) as later eqn:El. clear El.
  inversion Hbodies as [|? ? [_ Hb] Hrest]; subst.
  unfold isHeader in Hb.
  assert (Hf : firstFunctionOf (f ++ [nl])
                 (firstn (Z.to_nat (LastIndex (TrimSpace (f ++ [nl])) $"("))
                         (TrimSpace (f ++ [nl]))))
    by (split; [exact Hparen | reflexivity]).
  change ((h :: (f ++ [nl]) :: later) ++ more)
    with (h :: (f ++ [nl]) :: (later ++ more)).
  cbn [scanLines].
  unfold scanLine at 1. rewrite Hh, Hparse.
  unfold appendLine at 1.
  cbn [negb andb id state firstFunction fullStack app].
  unfold scanLine at 1. rewrite Hb.
  unfold appendLine at 1.
  cbn [negb andb id state firstFunction fullStack app].
  change (gostring_eqb [] []) with true. cbv iota.
  rewrite (proj2 (parseFirstFunc_Returns _ _) Hf).
  rewrite scanLines_later_bodies;
    [|exact Hrest | exact (firstFunctionOf_nonempty _ _ Hf)].
  cbn [concat]. rewrite <- app_assoc. reflexivity.
Qed.

End WellFormed.

(** ** Well-formed dumps *)

Lemma concat_linesOf (gs : list goroutine) : concat (linesOf gs) = dumpOf gs.
Proof.
  unfold linesOf, dumpOf. induction gs as [|g gs IH]; [reflexivity|].
  cbn [flat_map map concat]. rewrite concat_app, IH. reflexivity.
Qed.

Lemma linesOf_lines (gs : list goroutine) :
  forallb wellFormed gs = true -> Forall is_line (linesOf gs).
Proof.
  unfold linesOf. induction gs as [|g gs IH]; intros Hwf; [constructor|].
  cbn [forallb] in Hwf. apply andb_prop in Hwf. destruct Hwf as [Hg Hgs].
  cbn [flat_map]. apply Forall_app. split; [|exact (IH Hgs)].
  constructor; [exact (headerLine_is_line g Hg)|].
  eapply Forall_impl; [|exact (bodyLines_lines g Hg)]. intros l [Hl _]. exact Hl.
Qed.

Lemma scanLines_dump (gs : list goroutine) :
  forallb wellFormed gs = true -> gs <> [] ->
  forall stacks cur,
  exists stacks' cur',
    scanLines (linesOf gs) stacks cur = Continue stacks' (Some cur')
    /\ stacks' ++ [cur'] = flush stacks cur ++ map stackOf gs.
Proof.
  induction gs as [|g gs IH]; intros Hwf Hne stacks cur; [congruence|].
  cbn [forallb] in Hwf. apply andb_prop in Hwf. destruct Hwf as [Hg Hgs].
  unfold linesOf. cbn [flat_map]. fold (linesOf gs).
  rewrite (scanLines_record g Hg).
  destruct gs as [|g' gs].
  - exists (flush stacks cur), (stackOf g). split; reflexivity.
  - destruct (IH Hgs ltac:(discriminate) (flush stacks cur) (Some (stackOf g)))
      as (s' & c' & Hscan & Hlist).
    exists s', c'. split; [exact Hscan|].
    rewrite Hlist. cbn [flush map]. rewrite <- app_assoc. reflexivity.
Qed.

(** C1.  For a dump made of [N >= 1] well-formed records, one after the
    other, [getStacks] returns [N] stacks and no error, in the order of the
    records; the stack of rank [k] has the id and the state that the header
    of record [k] writes, and its full stack is the header line of that
    record followed by its body lines, byte for byte. *)
Theorem getStacks_well_formed_dump
        (rt : runtime_Stack) (all : bool) (gs : list goroutine) :
  getStackBuffer rt all = Some (Returns (dumpOf gs)) ->
  gs <> [] ->
  forallb wellFormed gs = true ->
  exists stacks,
    getStacks rt all = Some (Returns (stacks, None))
    /\ length stacks = length gs
    /\ stacks = map stackOf gs
    /\ forall k g,
        nth_error gs k = Some g ->
        exists s,
          nth_error stacks k = Some s
          /\ id s = decimal (idDigits g)
          /\ state s = goState g
          /\ fullStack s = headerLine g ++ concat (bodyLines g).
Proof.
  intros Hb Hne Hwf.
  exists (map stackOf gs).
  split; [|split; [apply length_map | split; [reflexivity|]]].
  - rewrite (getStacks_parse rt all _ Hb).
    rewrite <- concat_linesOf, <- (app_nil_r (concat (linesOf gs))).
    rewrite parse_lines; [|exact (linesOf_lines gs Hwf) | intros []].
    destruct (scanLines_dump gs Hwf Hne [] None) as (s' & c' & -> & Hlist).
    cbn [conclude]. rewrite getStacks_end_nonempty.
    + cbn [flush] in *. rewrite Hlist. reflexivity.
    + cbn [flush]. destruct s'; discriminate.
  - intros k g Hk. exists (stackOf g).
    split; [apply map_nth_error; exact Hk|].
    repeat split.
Qed.

(** ** Lines that do not parse *)

Lemma parseGoStackHeader_error (line : gostring) :
  let parts := SplitN (TrimSuffix line (":"%char :: [nl])) $" " 3 in
  length parts <> 3%nat
  \/ (exists p, nth_error parts 1 = Some p /\ snd (strconv.Atoi p) <> None) ->
  exists format operands,
    parseGoStackHeader line = (0, [], Some (fmt_Errorf format operands)).
Proof.
  cbv zeta. unfold parseGoStackHeader.
  destruct (SplitN (TrimSuffix line (":"%char :: [nl])) $" " 3)
    as [|a [|b [|c [|d parts]]]]; intros H; try (eexists; eexists; reflexivity).
  destruct H as [H|(p & Hp & Herr)]; [cbn in H; congruence|].
  cbn in Hp. inversion Hp; subst p.
  destruct (strconv.Atoi b) as [n [e|]]; [|cbn in Herr; congruence].
  eexists; eexists; reflexivity.
Qed.

(** After a header line the current stack has no first function yet. *)
Lemma scanLine_header (line : gostring) (stacks stacks' : list Stack)
      (cur cur' : option Stack) :
  isHeader line = true ->
  scanLine line stacks cur = Continue stacks' cur' ->
  exists i st, cur' = Some (mkStack i st [] line).
Proof.
  unfold scanLine, isHeader. intros ->.
  destruct (parseGoStackHeader line) as [[i st] [e|]]; [discriminate|].
  unfold appendLine. cbn [negb andb id state firstFunction fullStack app].
  intros H; inversion H; subst. eauto.
Qed.


(** ** The TestMain adapter *)

(** C7.  When the tests fail, [verifyTestMain] returns their exit code as it
    is, and the run of the tests is the only call it makes: [Find] is not
    called and nothing is written to the error stream. *)
Theorem verifyTestMain_test_failure
        (Option : Type) (w : goleak.stubs Option) (options : list Option) :
  goleak.runResult w <> 0 ->
  goleak.exec w (goleak.verifyTestMain Option options)
  = (goleak.runResult w, [goleak.RunCalled]).
Proof.
  intros Hrun. unfold goleak.verifyTestMain. cbn.
  destruct (goleak.runResult w =? 0) eqn:E; [apply Z.eqb_eq in E; congruence|].
  reflexivity.
Qed.


(** ** The statements on sample inputs *)

Lemma getStacks_well_formed_dump_witness :
  exists stacks,
    getStacks (dumpRuntime (dumpOf sampleRecords)) true = Some (Returns (stacks, None))
    /\ length stacks = length sampleRecords
    /\ stacks = map stackOf sampleRecords
    /\ forall k g,
        nth_error sampleRecords k = Some g ->
        exists s,
          nth_error stacks k = Some s
          /\ id s = decimal (idDigits g)
          /\ state s = goState g
          /\ fullStack s = headerLine g ++ concat (bodyLines g).
Proof.
  apply (getStacks_well_formed_dump (dumpRuntime (dumpOf sampleRecords)) true sampleRecords).
  - vm_compute. reflexivity.
  - discriminate.
  - vm_compute. reflexivity.
Defined.

Lemma getStacks_first_line_not_header_witness :
  (HasPrefix ($"main.f(...)" ++ [nl]) $"goroutine " = false ->
   getStacks (dumpRuntime sampleNoHeader) true = Some (Panics nilDereference))
  /\ (forall out, getStacks (dumpRuntime sampleNoHeader) true = Some (Returns out) ->
                  HasPrefix ($"main.f(...)" ++ [nl]) $"goroutine " = true).
Proof.
  apply (getStacks_first_line_not_header
           (dumpRuntime sampleNoHeader) true
           ($"main.f(...)" ++ [nl]) ($"goroutine 1 [running]:" ++ [nl])).
  - vm_compute. reflexivity.
  - line_of ($"main.f(...)").
Defined.

Lemma getStacks_no_records_witness :
  (forall stacks cur,
      scan $"goroutine 1 [run" = Some (Continue stacks cur) -> flush stacks cur = [] ->
      getStacks (dumpRuntime $"goroutine 1 [run") true
      = Some (Returns ([], Some errNoStacks)))
  /\ ((exists stacks cur,
          scan $"goroutine 1 [run" = Some (Continue stacks cur) /\ flush stacks cur = [])
      <-> ~ In nl $"goroutine 1 [run")
  /\ ($"goroutine 1 [run" = [] ->
      getStacks (dumpRuntime $"goroutine 1 [run") true
      = Some (Returns ([], Some errNoStacks))).
Proof.
  apply (getStacks_no_records (dumpRuntime $"goroutine 1 [run") true $"goroutine 1 [run").
  vm_compute. reflexivity.
Defined.

Lemma getStacks_ignores_unterminated_tail_witness :
  getStacks (dumpRuntime (dumpOf sampleCurrent ++ $"goroutine 8 [sel")) true
  = parse (dumpOf sampleCurrent)
  /\ getStacks (dumpRuntime (dumpOf sampleCurrent ++ $"goroutine 8 [sel")) true
     = Some (conclude (scanLines (fst (splitLines (dumpOf sampleCurrent))) [] None)).
Proof.
  apply (getStacks_ignores_unterminated_tail
           (dumpRuntime (dumpOf sampleCurrent ++ $"goroutine 8 [sel")) true
           (dumpOf sampleCurrent) $"goroutine 8 [sel").
  - vm_compute. reflexivity.
  - right. exists ($"goroutine 7 [running]:" ++ [nl] ++ $"testing.tRunner(0xc000)").
    reflexivity.
  - simpl. intuition discriminate.
Defined.

Lemma Current_single_record_witness :
  getStacks (dumpRuntime (dumpOf sampleCurrent)) false
  = Some (Returns ([stackOf (mkGoroutine [7%nat] $"running" [$"testing.tRunner(0xc000)"])],
                   None)).
Proof.
  apply (Current_single_record (dumpRuntime (dumpOf sampleCurrent)) (dumpOf sampleCurrent)).
  - vm_compute. reflexivity.
  - vm_compute. reflexivity.
  - vm_compute. reflexivity.
Defined.

Lemma getStacks_firstFunction_witness :
  Forall recordShape (map stackOf sampleRecords).
Proof.
  apply (getStacks_firstFunction
           (dumpRuntime (dumpOf sampleRecords)) true (dumpOf sampleRecords)).
  - vm_compute. reflexivity.
  - vm_compute. reflexivity.
Defined.


Lemma verifyTestMain_test_failure_witness :
  goleak.exec (stubsOf 2 (Some errNoStacks)) (goleak.verifyTestMain unit [tt])
  = (2, [goleak.RunCalled]).
Proof.
  apply (verifyTestMain_test_failure unit (stubsOf 2 (Some errNoStacks)) [tt]).
  vm_compute. discriminate.
Defined.


(** ** Where the code departs from the specification *)



(** C4 as stated fails: the first function is cut at the last opening
    parenthesis, so a method with a pointer receiver keeps its receiver,
    where the cut at the first parenthesis would leave the package name. *)
Lemma firstFunction_cut_at_last_paren :
  exists s rest,
    getStacks (dumpRuntime (dumpOf sampleRecords)) true = Some (Returns (s :: rest, None))
    /\ firstFunction s = $"main.(" ++ $"*T).run"
    /\ firstFunction_spec ($"main.(" ++ $"*T).run(0x1)" ++ [nl]) = Some $"main."
    /\ Some (firstFunction s) <> firstFunction_spec ($"main.(" ++ $"*T).run(0x1)" ++ [nl]).
Proof.
  eexists. eexists. split; [vm_compute; reflexivity|].
  split; [reflexivity|]. split; [reflexivity|]. vm_compute. discriminate.
Qed.
(** * Further properties *)

(** ** The capture loop, from its result *)

Lemma getStackBuffer_loop_never_fits (rt : runtime_Stack) (all : bool) (d : nat) :
  forall j fuel,
    (j + d = 47)%nat -> (d < fuel)%nat ->
    (forall m, (j <= m <= 46)%nat -> ~ fits rt all m) ->
    getStackBuffer_loop fuel rt all (capacity j) = Some (Panics makesliceLen).
Proof.
  induction d as [|d IH]; intros j fuel Hj Hf Hnone;
    (destruct fuel as [|fuel]; [lia|]).
  - replace j with 47%nat by lia. rewrite capacity_47. reflexivity.
  - rewrite getStackBuffer_loop_retry; [|lia|apply Hnone; lia].
    apply IH; try lia. intros m Hm; apply Hnone; lia.
Qed.


(** A buffer that [getStackBuffer] returns comes from the first attempt that
    fits, one of the 47 lengths from 64 KiB to [2^62]; it is the reported
    prefix of that buffer and is shorter than the buffer. *)
Theorem getStackBuffer_returns (rt : runtime_Stack) (all : bool) (b : gostring) :
  getStackBuffer rt all = Some (Returns b) ->
  exists k,
    (k <= 46)%nat
    /\ fits rt all k
    /\ (forall j, (j < k)%nat -> ~ fits rt all j)
    /\ 0 <= snd (rt (capacity k) all)
    /\ b = firstn (Z.to_nat (snd (rt (capacity k) all))) (fst (rt (capacity k) all))
    /\ Z.of_nat (length b) < capacity k.
Proof.
  intros Hb.
  destruct (fits_below_dec rt all 47) as [(j & Hj & Hfit)|Hnone].
  - destruct (first_fit rt all j Hfit) as (k & Hk & Hfitk & Hmin).
    assert (Hrun : getStackBuffer rt all
                   = Some (sliceTo (fst (rt (capacity k) all)) (snd (rt (capacity k) all)))).
    { unfold getStackBuffer. change _defaultBufferSize with (capacity 0).
      apply (getStackBuffer_loop_first_fit rt all k 0%nat k); try lia; try assumption.
      intros m Hm; apply Hmin; lia. }
    rewrite Hrun in Hb. unfold sliceTo in Hb.
    destruct (Z.ltb_spec (snd (rt (capacity k) all)) 0) as [Hneg|Hnn]; [discriminate|].
    inversion Hb as [Hb']. clear Hb.
    exists k. repeat split; try assumption; try lia.
    pose proof (firstn_le_length (Z.to_nat (snd (rt (capacity k) all)))
                                 (fst (rt (capacity k) all))) as Hlen.
    unfold fits in Hfitk. lia.
  - exfalso.
    assert (Hp : getStackBuffer rt all = Some (Panics makesliceLen)).
    { unfold getStackBuffer. change _defaultBufferSize with (capacity 0).
      apply (getStackBuffer_loop_never_fits rt all 47 0%nat); try lia.
      intros m Hm. apply Hnone. lia. }
    rewrite Hp in Hb. discriminate.
Qed.

(** ** The first function, from the text of the line *)

Lemma LastIndex_from_char (c : ascii) (s : gostring) :
  forall i,
    0 <= i ->
    (LastIndex_from i s [c] = -1 /\ ~ In c s)
    \/ (exists a b, s = a ++ c :: b /\ ~ In c b /\ LastIndex_from i s [c] = i + len a).
Proof.
  induction s as [|d s IH]; intros i Hi.
  - left. split; [reflexivity | intros []].
  - cbn [LastIndex_from].
    destruct (IH (i + 1) ltac:(lia)) as [[Hlater Hnot]|(a & b & -> & Hb & Hlater)];
      rewrite Hlater.
    + change (0 <=? -1) with false. cbv iota.
      cbn [HasPrefix]. rewrite andb_true_r.
      destruct (Ascii.eqb d c) eqn:E.
      * apply Ascii.eqb_eq in E; subst d. right.
        exists [], s. split; [reflexivity|]. split; [exact Hnot|]. unfold len; simpl; lia.
      * apply Ascii.eqb_neq in E. left. split; [reflexivity|].
        intros [H|H]; [congruence | exact (Hnot H)].
    + assert (Hnn : 0 <= len a) by (unfold len; lia).
      destruct (Z.leb_spec 0 (i + 1 + len a)) as [Hle|Hlt]; [|lia].
      right. exists (d :: a), b. split; [reflexivity|]. split; [exact Hb|].
      unfold len in *. simpl length. lia.
Qed.

(** The last occurrence of a character splits a text in one way only. *)
Lemma last_occurrence_unique (c : ascii) (a a' b b' : gostring) :
  a ++ c :: b = a' ++ c :: b' -> ~ In c b -> ~ In c b' -> a = a'.
Proof.
  revert a'. induction a as [|x a IH]; intros a' Heq Hb Hb'.
  - destruct a' as [|y a']; [reflexivity|].
    simpl in Heq. inversion Heq; subst. exfalso. apply Hb.
    apply in_or_app. right. left. reflexivity.
  - destruct a' as [|y a'].
    + simpl in Heq. inversion Heq; subst. exfalso. apply Hb'.
      apply in_or_app. right. left. reflexivity.
    + simpl in Heq. inversion Heq; subst. f_equal. exact (IH a' H1 Hb Hb').
Qed.

(** [parseFirstFunc] returns [f] exactly when the trimmed line is [f], an
    opening parenthesis and a rest without one, with [f] not empty: the
    first function is everything before the last parenthesis.  On any other
    line it panics. *)
Theorem parseFirstFunc_last_paren (line f : gostring) :
  parseFirstFunc line = Returns f
  <-> f <> []
      /\ exists rest, TrimSpace line = f ++ "("%char :: rest /\ ~ In "("%char rest.
Proof.
  rewrite parseFirstFunc_Returns. unfold firstFunctionOf. cbv zeta.
  change (list_ascii_of_string "(") with ["("%char]. unfold LastIndex.
  destruct (LastIndex_from_char "("%char (TrimSpace line) 0 ltac:(lia))
    as [[Hidx Hnot]|(a & b & Ht & Hb & Hidx)]; rewrite Hidx.
  - split; [intros [H _]; lia|].
    intros (_ & rest & Ht & _). exfalso. apply Hnot. rewrite Ht.
    apply in_or_app. right. left. reflexivity.
  - rewrite Ht. split.
    + intros [Hpos ->]. unfold len in *.
      replace (Z.to_nat (0 + Z.of_nat (length a))) with (length a) by lia.
      rewrite firstn_length_app. split.
      * destruct a; [simpl in Hpos; lia | discriminate].
      * exists b. split; [reflexivity | exact Hb].
    + intros (Hne & rest & Heq & Hrest).
      pose proof (last_occurrence_unique _ _ _ _ _ Heq Hb Hrest) as ->.
      unfold len. split; [destruct f; [congruence | simpl; lia]|].
      replace (Z.to_nat (0 + Z.of_nat (length f))) with (length f) by lia.
      rewrite firstn_length_app. reflexivity.
Qed.

(** ** Header lines, from their fields *)

(** [parseGoStackHeader] fails exactly when the line, without its final
    colon and line feed, has fewer than three fields between single spaces
    or a second field that [Atoi] rejects.  A failure carries the zero id,
    the empty state and an error of [fmt.Errorf]. *)
Theorem parseGoStackHeader_errors (line : gostring) :
  let parts := SplitN (TrimSuffix line (":"%char :: [nl])) $" " 3 in
  ((exists e, snd (parseGoStackHeader line) = Some e)
   <-> length parts <> 3%nat
       \/ (exists p, nth_error parts 1 = Some p /\ snd (strconv.Atoi p) <> None))
  /\ (forall e, snd (parseGoStackHeader line) = Some e ->
                fst (parseGoStackHeader line) = (0, [])
                /\ exists format operands, e = fmt_Errorf format operands).
Proof.
  cbv zeta. unfold parseGoStackHeader.
  destruct (SplitN (TrimSuffix line (":"%char :: [nl])) $" " 3)
    as [|a [|b [|c [|d parts]]]]; cbn [length nth_error snd fst].
  1, 2, 3, 5:
    (split;
     [split; [intros _; left; discriminate | intros _; eexists; reflexivity]
     |intros e He; inversion He; subst; split; [reflexivity | eexists; eexists; reflexivity]]).
  destruct (strconv.Atoi b) as [n [err|]] eqn:E; cbn [snd fst].
  - split.
    + split; [|intros _; eexists; reflexivity].
      intros _. right. exists b. split; [reflexivity|]. rewrite E. discriminate.
    + intros e He; inversion He; subst. split; [reflexivity | eexists; eexists; reflexivity].
  - split.
    + split; [intros [e He]; discriminate|].
      intros [H|(p & Hp & Herr)]; [congruence|].
      inversion Hp; subst p. rewrite E in Herr. cbn in Herr. congruence.
    + intros e He. discriminate.
Qed.

Lemma Atoi_negative (ds : list nat) :
  ds <> [] ->
  Forall (fun d => (d < 10)%nat) ds ->
  decimal ds <= 2 ^ 63 ->
  strconv.Atoi ("-"%char :: map digitChar ds) = (- decimal ds, None).
Proof.
  intros Hne Hds Hmax.
  destruct ds as [|d ds]; [congruence|].
  pose proof (digits_map (d :: ds) Hds 0) as Hdig.
  pose proof (fold_decimal_nonneg (d :: ds) 0 ltac:(lia)) as Hnn.
  fold (decimal (d :: ds)) in Hdig, Hnn.
  unfold strconv.Atoi.
  change (Ascii.eqb "-" "-") with true. cbv beta iota.
  change (map digitChar (d :: ds)) with (digitChar d :: map digitChar ds) in *.
  cbv beta iota. rewrite Hdig.
  unfold strconv.minInt, strconv.maxInt in *.
  destruct (Z.ltb_spec (- decimal (d :: ds)) (- 2 ^ 63)) as [H1|H1]; [lia|].
  destruct (Z.ltb_spec (2 ^ 63 - 1) (- decimal (d :: ds))) as [H2|H2]; [lia|].
  reflexivity.
Qed.

(** The id of a header is whatever [Atoi] reads: a minus sign before the
    digits is accepted and gives a negative id, down to the least [int]. *)
Theorem parseGoStackHeader_negative_id (ds : list nat) (st : gostring) :
  ds <> [] ->
  Forall (fun d => (d < 10)%nat) ds ->
  decimal ds <= 2 ^ 63 ->
  parseGoStackHeader
    ($"goroutine " ++ ("-"%char :: map digitChar ds) ++ $" [" ++ st ++ $"]:" ++ [nl])
  = (- decimal ds, st, None).
Proof.
  intros Hne Hds Hmax.
  rewrite parseGoStackHeader_shape.
  - rewrite Atoi_negative by assumption. reflexivity.
  - intros [H|Hin]; [discriminate H|].
    destruct (digitChars_clean _ _ Hds Hin) as [H _]. congruence.
Qed.

(** ** What [getStacks] returns *)

Lemma conclude_cases (lines : list gostring) (stacks : list Stack) (err : option error) :
  conclude (scanLines lines [] None) = Returns (stacks, err) ->
  (err = None /\ stacks <> []) \/ (exists e, err = Some e /\ stacks = []).
Proof.
  destruct (scanLines lines [] None) as [s c|r] eqn:E; cbn [conclude].
  - unfold getStacks_end. destruct (flush s c) as [|x l]; cbn; intros H; inversion H; subst.
    + right. eauto.
    + left. split; [reflexivity | discriminate].
  - intros ->. apply scanLines_Done in E.
    destruct E as [(p & Hp)|(e & He)]; [discriminate|].
    inversion He; subst. right. eauto.
Qed.

Lemma getStacks_cases (rt : runtime_Stack) (all : bool)
      (stacks : list Stack) (err : option error) :
  getStacks rt all = Some (Returns (stacks, err)) ->
  (err = None /\ stacks <> []) \/ (exists e, err = Some e /\ stacks = []).
Proof.
  intros Hg.
  destruct (getStackBuffer rt all) as [[buf|p]|] eqn:Hb.
  - rewrite (getStacks_lines rt all buf Hb) in Hg. inversion Hg as [Hc].
    exact (conclude_cases _ _ _ Hc).
  - unfold getStacks in Hg. rewrite Hb in Hg. discriminate.
  - unfold getStacks in Hg. rewrite Hb in Hg. discriminate.
Qed.

(** [getStacks] returns stacks or an error, never both and never neither: a
    result without error holds at least one stack, and a result with an
    error holds none. *)
Theorem getStacks_stacks_or_error (rt : runtime_Stack) (all : bool)
        (stacks : list Stack) (err : option error) :
  getStacks rt all = Some (Returns (stacks, err)) ->
  (err = None /\ stacks <> []) \/ (exists e, err = Some e /\ stacks = []).
Proof. exact (getStacks_cases rt all stacks err). Qed.

Lemma scanLine_fields (line : gostring) (stacks stacks' : list Stack)
      (cur cur' : option Stack) :
  scanLine line stacks cur = Continue stacks' cur' ->
  map idState (flush stacks' cur')
  = map idState (flush stacks cur) ++ (if isHeader line then [headerFields line] else [])
  /\ concat (map fullStack (flush stacks' cur'))
     = concat (map fullStack (flush stacks cur)) ++ line.
Proof.
  unfold scanLine, isHeader, headerFields.
  destruct (HasPrefix line $"goroutine ") eqn:Hp.
  - destruct (parseGoStackHeader line) as [[i st] [e|]]; [discriminate|].
    unfold appendLine. cbn [negb andb id state firstFunction fullStack app].
    intros H; inversion H; subst. cbn [flush fst].
    rewrite !map_app, concat_app. cbn. rewrite app_nil_r. split; reflexivity.
  - unfold appendLine. destruct cur as [c|]; [|discriminate].
    cbn [negb andb id state firstFunction fullStack].
    destruct (gostring_eqb (firstFunction c) []).
    + destruct (parseFirstFunc line) as [f|p]; [|discriminate].
      intros H; inversion H; subst. cbn [flush].
      rewrite !map_app, !concat_app. cbn. rewrite !app_nil_r, app_assoc.
      split; reflexivity.
    + intros H; inversion H; subst. cbn [flush].
      rewrite !map_app, !concat_app. cbn. rewrite !app_nil_r, app_assoc.
      split; reflexivity.
Qed.

Lemma scanLines_fields (lines : list gostring) :
  forall stacks cur stacks' cur',
    scanLines lines stacks cur = Continue stacks' cur' ->
    map idState (flush stacks' cur')
    = map idState (flush stacks cur) ++ map headerFields (filter isHeader lines)
    /\ concat (map fullStack (flush stacks' cur'))
       = concat (map fullStack (flush stacks cur)) ++ concat lines.
Proof.
  induction lines as [|l lines IH]; intros stacks cur stacks' cur' H; cbn [scanLines] in H.
  - inversion H; subst. cbn. rewrite !app_nil_r. split; reflexivity.
  - destruct (scanLine l stacks cur) as [s1 c1|r] eqn:E; [|discriminate].
    destruct (scanLine_fields _ _ _ _ _ E) as [H1 H2].
    destruct (IH _ _ _ _ H) as [H3 H4].
    rewrite H3, H4, H1, H2. cbn [filter concat].
    rewrite <- !app_assoc. split; [|reflexivity].
    destruct (isHeader l); reflexivity.
Qed.

(** On any dump that it parses, [getStacks] returns one stack for each
    header line, in the order of the lines, with the id and the state that
    [parseGoStackHeader] reads from that line. *)
Theorem getStacks_headers_in_order
        (rt : runtime_Stack) (all : bool) (buf : gostring) (stacks : list Stack) :
  getStackBuffer rt all = Some (Returns buf) ->
  getStacks rt all = Some (Returns (stacks, None)) ->
  map idState stacks = map headerFields (filter isHeader (fst (splitLines buf))).
Proof.
  intros Hb Hg.
  rewrite (getStacks_lines rt all buf Hb) in Hg. inversion Hg as [Hc]. clear Hg.
  apply conclude_success in Hc. destruct Hc as (s' & c' & Hs & -> & _).
  destruct (scanLines_fields _ _ _ _ _ Hs) as [H _]. exact H.
Qed.

(** [getStacks] loses no byte of the lines it reads: the full stacks that it
    returns, one after the other, are the dump up to its last line feed. *)
Theorem getStacks_keeps_text
        (rt : runtime_Stack) (all : bool) (buf : gostring) (stacks : list Stack) :
  getStackBuffer rt all = Some (Returns buf) ->
  getStacks rt all = Some (Returns (stacks, None)) ->
  exists tail, ~ In nl tail /\ buf = concat (map fullStack stacks) ++ tail.
Proof.
  intros Hb Hg.
  rewrite (getStacks_lines rt all buf Hb) in Hg. inversion Hg as [Hc]. clear Hg.
  apply conclude_success in Hc. destruct Hc as (s' & c' & Hs & -> & _).
  destruct (scanLines_fields _ _ _ _ _ Hs) as [_ H].
  destruct (splitLines_spec buf) as (Hbuf & _ & Ht).
  exists (snd (splitLines buf)). split; [exact Ht|].
  rewrite H. exact Hbuf.
Qed.

(** The full stacks that [getStacks] returns parse back to the same stacks:
    a dump made of them, one after the other, gives the result again. *)
Theorem getStacks_reparse
        (rt rt' : runtime_Stack) (all all' : bool) (buf : gostring) (stacks : list Stack) :
  getStackBuffer rt all = Some (Returns buf) ->
  getStacks rt all = Some (Returns (stacks, None)) ->
  getStackBuffer rt' all' = Some (Returns (concat (map fullStack stacks))) ->
  getStacks rt' all' = Some (Returns (stacks, None)).
Proof.
  intros Hb Hg Hb'.
  rewrite (getStacks_lines rt all buf Hb) in Hg. inversion Hg as [Hc]. clear Hg.
  pose proof Hc as Hc'.
  apply conclude_success in Hc'. destruct Hc' as (s' & c' & Hs & -> & _).
  destruct (scanLines_fields _ _ _ _ _ Hs) as [_ H].
  destruct (splitLines_spec buf) as (_ & Hl & _).
  rewrite (getStacks_parse rt' all' _ Hb'). rewrite H. cbn [flush map concat app].
  rewrite <- (app_nil_r (concat (fst (splitLines buf)))).
  rewrite parse_lines; [|exact Hl | intros []].
  rewrite Hc. reflexivity.
Qed.

(** ** The panics of the parser *)

Lemma getStackBuffer_loop_panics (rt : runtime_Stack) (all : bool) (fuel : nat) :
  forall i p,
    getStackBuffer_loop fuel rt all i = Some (Panics p) ->
    p = makesliceLen \/ p = sliceBounds.
Proof.
  induction fuel as [|fuel IH]; intros i p H; cbn [getStackBuffer_loop] in H.
  - discriminate.
  - destruct (i <? 0); [inversion H; left; reflexivity|].
    destruct (rt i all) as [buf n].
    destruct (n <? i); [|exact (IH _ _ H)].
    unfold sliceTo in H. destruct (n <? 0); inversion H. right; reflexivity.
Qed.

Lemma scanLine_panics (line : gostring) (stacks : list Stack) (cur : option Stack)
      (p : panicValue) :
  scanLine line stacks cur = Done (Panics p) ->
  p = nilDereference
  \/ exists text, p = panicSprintf $"function calls missing parents: %q" [text].
Proof.
  unfold scanLine.
  destruct (HasPrefix line $"goroutine ").
  - destruct (parseGoStackHeader line) as [[i st] [e|]]; [discriminate|].
    unfold appendLine. cbn [negb andb]. discriminate.
  - unfold appendLine. destruct cur as [c|].
    + destruct (negb false && _); [|discriminate].
      unfold parseFirstFunc. cbv zeta.
      destruct (0 <? LastIndex (TrimSpace line) $"("); [discriminate|].
      intros H; inversion H. right. eauto.
    + intros H; inversion H. left. reflexivity.
Qed.

Lemma scanLines_panics (lines : list gostring) :
  forall stacks cur p,
    scanLines lines stacks cur = Done (Panics p) ->
    p = nilDereference
    \/ exists text, p = panicSprintf $"function calls missing parents: %q" [text].
Proof.
  induction lines as [|l lines IH]; intros stacks cur p H; cbn [scanLines] in H.
  - discriminate.
  - destruct (scanLine l stacks cur) as [s1 c1|r1] eqn:E.
    + exact (IH _ _ _ H).
    + inversion H; subst. exact (scanLine_panics _ _ _ _ E).
Qed.

Lemma getStacks_panic_cases (rt : runtime_Stack) (all : bool) (p : panicValue) :
  getStacks rt all = Some (Panics p) -> getStacksPanic p.
Proof.
  intros Hg. unfold getStacksPanic.
  destruct (getStackBuffer rt all) as [[buf|q]|] eqn:Hb.
  - rewrite (getStacks_lines rt all buf Hb) in Hg. inversion Hg as [Hc]. clear Hg.
    destruct (scanLines (fst (splitLines buf)) [] None) as [s c|r] eqn:E; cbn [conclude] in Hc.
    + unfold getStacks_end in Hc. destruct (length (flush s c) =? 0)%nat; discriminate.
    + subst r. destruct (scanLines_panics _ _ _ _ E) as [H|H]; tauto.
  - unfold getStacks in Hg. rewrite Hb in Hg. inversion Hg; subst q.
    unfold getStackBuffer in Hb.
    destruct (getStackBuffer_loop_panics _ _ _ _ _ Hb) as [H|H]; tauto.
  - unfold getStacks in Hg. rewrite Hb in Hg. discriminate.
Qed.

(** [getStacks] panics in four ways only: on the nil current stack, in
    [parseFirstFunc], and in the capture ([make] and the slice).  The panic
    written for a failing [ReadString] can not happen, and no index is out
    of range. *)
Theorem getStacks_panics (rt : runtime_Stack) (all : bool) (p : panicValue) :
  getStacks rt all = Some (Panics p) ->
  getStacksPanic p
  /\ p <> panicString $"bufio.NewReader failed on a fixed string"
  /\ p <> indexOutOfRange.
Proof.
  intros Hg. pose proof (getStacks_panic_cases rt all p Hg) as Hp.
  split; [exact Hp|].
  destruct Hp as [->|[(text & ->)|[->| ->]]]; split; discriminate.
Qed.

(** ** [Current] *)

(** [Current] indexes [stacks[0]] without a test, and safely: each of its
    panics is a panic of [getStacks], each of its errors is the error of
    [getStacks] beside the zero [Stack], and otherwise it returns the first
    of the stacks that [getStacks] parsed. *)
Theorem Current_from_getStacks (rt : runtime_Stack) :
  (forall p, Current rt = Some (Panics p) <-> getStacks rt false = Some (Panics p))
  /\ (forall s e, Current rt = Some (Returns (s, Some e))
                  <-> s = mkStack 0 [] [] []
                      /\ exists stacks, getStacks rt false = Some (Returns (stacks, Some e)))
  /\ (forall s, Current rt = Some (Returns (s, None))
                <-> exists rest, getStacks rt false = Some (Returns (s :: rest, None))).
Proof.
  assert (Hcases : forall stacks, getStacks rt false = Some (Returns (stacks, None)) ->
                                  exists x l, stacks = x :: l).
  { intros stacks Hg.
    destruct (getStacks_cases rt false stacks None Hg) as [[_ Hne]|(e & He & _)];
      [|discriminate].
    destruct stacks as [|x l]; [congruence | eauto]. }
  unfold Current.
  destruct (getStacks rt false) as [[[stacks [e|]]|p]|] eqn:Hg.
  - split; [|split].
    + intros q. split; intros H; discriminate H.
    + intros s e'. split.
      * intros H. inversion H; subst. split; [reflexivity | eauto].
      * intros [Hs [stacks' H]]. inversion H; subst. reflexivity.
    + intros s. split; [intros H; discriminate H | intros [rest H]; discriminate H].
  - destruct (Hcases stacks eq_refl) as (x & l & ->).
    split; [|split].
    + intros q. split; intros H; discriminate H.
    + intros s e'. split; [intros H; discriminate H|].
      intros [Hs [stacks' H]]. discriminate H.
    + intros s. split.
      * intros H. inversion H; subst. eauto.
      * intros [rest H]. inversion H; subst. reflexivity.
  - split; [|split].
    + intros q. split; intros H; inversion H; reflexivity.
    + intros s e'. split; [intros H; discriminate H|].
      intros [Hs [stacks' H]]. discriminate H.
    + intros s. split; [intros H; discriminate H | intros [rest H]; discriminate H].
  - split; [|split].
    + intros q. split; intros H; discriminate H.
    + intros s e'. split; [intros H; discriminate H|].
      intros [Hs [stacks' H]]. discriminate H.
    + intros s. split; [intros H; discriminate H | intros [rest H]; discriminate H].
Qed.

(** ** Dumps of records *)

(** The record with the header of [g] and one body line that parses. *)
Lemma headerOk_wellFormed (g : goroutine) :
  headerOk g = true ->
  wellFormed (mkGoroutine (idDigits g) (goState g) [$"f("]) = true.
Proof.
  unfold headerOk, wellFormed. cbn [idDigits goState frames].
  intros H. rewrite H. reflexivity.
Qed.

Lemma scanLines_bare_record (g : goroutine) (more : list gostring)
      (stacks : list Stack) (cur : option Stack) :
  headerOk g = true ->
  scanLines (headerLine g :: more) stacks cur
  = scanLines more (flush stacks cur) (Some (bareStack g)).
Proof.
  intros Hok. pose proof (headerOk_wellFormed g Hok) as Hwf.
  pose proof (headerLine_isHeader (mkGoroutine (idDigits g) (goState g) [$"f("])) as Hh.
  pose proof (headerLine_parse _ Hwf) as Hparse.
  change (headerLine (mkGoroutine (idDigits g) (goState g) [$"f("]))
    with (headerLine g) in *.
  cbn [idDigits goState] in Hparse. unfold isHeader in Hh.
  unfold bareStack. remember (headerLine g) as h eqn:Eh. clear Eh.
  cbn [scanLines]. unfold scanLine. rewrite Hh, Hparse.
  unfold appendLine. cbn [negb andb id state firstFunction fullStack app].
  reflexivity.
Qed.

Lemma scanLines_bare_dump (gs : list goroutine) :
  forallb headerOk gs = true -> gs <> [] ->
  forall stacks cur,
  exists stacks' cur',
    scanLines (map headerLine gs) stacks cur = Continue stacks' (Some cur')
    /\ stacks' ++ [cur'] = flush stacks cur ++ map bareStack gs.
Proof.
  induction gs as [|g gs IH]; intros Hok Hne stacks cur; [congruence|].
  cbn [forallb] in Hok. apply andb_prop in Hok. destruct Hok as [Hg Hgs].
  cbn [map]. rewrite (scanLines_bare_record g _ _ _ Hg).
  destruct gs as [|g' gs].
  - exists (flush stacks cur), (bareStack g). split; reflexivity.
  - destruct (IH Hgs ltac:(discriminate) (flush stacks cur) (Some (bareStack g)))
      as (s' & c' & Hscan & Hlist).
    exists s', c'. split; [exact Hscan|].
    rewrite Hlist. cbn [flush map]. rewrite <- app_assoc. reflexivity.
Qed.

(** A record may have no body line: for a dump of header lines alone,
    [getStacks] returns one stack for each, with the empty first function
    and the header line as full stack, and no error. *)
Theorem getStacks_header_only_records
        (rt : runtime_Stack) (all : bool) (gs : list goroutine) :
  getStackBuffer rt all = Some (Returns (concat (map headerLine gs))) ->
  gs <> [] ->
  forallb headerOk gs = true ->
  getStacks rt all = Some (Returns (map bareStack gs, None)).
Proof.
  intros Hb Hne Hok.
  rewrite (getStacks_parse rt all _ Hb).
  rewrite <- (app_nil_r (concat (map headerLine gs))).
  rewrite parse_lines; [| |intros []].
  - destruct (scanLines_bare_dump gs Hok Hne [] None) as (s' & c' & -> & Hlist).
    cbn [conclude]. rewrite getStacks_end_nonempty.
    + cbn [flush] in *. rewrite Hlist. reflexivity.
    + cbn [flush]. destruct s'; discriminate.
  - apply Forall_forall. intros l Hl. apply in_map_iff in Hl.
    destruct Hl as (g & <- & Hg).
    rewrite forallb_forall in Hok.
    exact (headerLine_is_line _ (headerOk_wellFormed g (Hok g Hg))).
Qed.

(** [Current] does not check that the capture holds one goroutine: on a
    well-formed dump of several records it returns the stack of the first
    record and drops the others. *)
Theorem Current_first_of_several
        (rt : runtime_Stack) (g : goroutine) (gs : list goroutine) :
  getStackBuffer rt false = Some (Returns (dumpOf (g :: gs))) ->
  forallb wellFormed (g :: gs) = true ->
  Current rt = Some (Returns (stackOf g, None)).
Proof.
  intros Hb Hwf.
  assert (Hg : getStacks rt false = Some (Returns (map stackOf (g :: gs), None))).
  { rewrite (getStacks_parse rt false _ Hb).
    rewrite <- concat_linesOf, <- (app_nil_r (concat (linesOf (g :: gs)))).
    rewrite parse_lines; [|exact (linesOf_lines _ Hwf) | intros []].
    destruct (scanLines_dump (g :: gs) Hwf ltac:(discriminate) [] None)
      as (s' & c' & -> & Hlist).
    cbn [conclude]. rewrite getStacks_end_nonempty.
    + cbn [flush] in *. rewrite Hlist. reflexivity.
    + cbn [flush]. destruct s'; discriminate. }
  unfold Current. rewrite Hg. reflexivity.
Qed.

(** ** The adapter, call by call *)

(** When the tests pass, [verifyTestMain] calls [Find] once, right after the
    tests, with the options it was given; whatever follows is a write to the
    error stream.  When [Find] then returns no error, nothing is written and
    the exit code is 0. *)
Theorem verifyTestMain_passing_tests
        (Option : Type) (w : goleak.stubs Option) (options : list Option) :
  goleak.runResult w = 0 ->
  exists code tail,
    goleak.exec w (goleak.verifyTestMain Option options)
    = (code, goleak.RunCalled :: goleak.FindCalled options :: tail)
    /\ (forall e, In e tail -> isStderrWritten e = true)
    /\ (goleak.findResult w options = None -> code = 0 /\ tail = []).
Proof.
  intros Hrun. unfold goleak.verifyTestMain. cbn. rewrite Hrun. cbn.
  destruct (goleak.findResult w options) as [err|]; cbn.
  - destruct (goleak.isStackParseErr err); cbn;
      (eexists; eexists; split; [reflexivity|]; split;
       [intros e [<-|[]]; reflexivity | intros H; discriminate H]).
  - exists 0, []. split; [reflexivity|]. split; [intros e [] | intros _; split; reflexivity].
Qed.

(** [verifyTestMain] writes to the error stream at most once, and only the
    error that [Find] returned after passing tests: one write for each such
    error, none when [Find] returns nil or the tests fail. *)
Theorem verifyTestMain_one_diagnostic
        (Option : Type) (w : goleak.stubs Option) (options : list Option) :
  let trace := snd (goleak.exec w (goleak.verifyTestMain Option options)) in
  (forall format err,
      In (goleak.StderrWritten format err) trace ->
      goleak.runResult w = 0 /\ goleak.findResult w options = Some err)
  /\ length (filter isStderrWritten trace)
     = if goleak.runResult w =? 0
       then match goleak.findResult w options with Some _ => 1%nat | None => 0%nat end
       else 0%nat.
Proof.
  cbv zeta. unfold goleak.verifyTestMain. cbn.
  destruct (goleak.runResult w =? 0) eqn:E; cbn.
  - apply Z.eqb_eq in E.
    destruct (goleak.findResult w options) as [err|]; cbn.
    + destruct (goleak.isStackParseErr err); cbn; (split; [|reflexivity]);
        intros format err' [H|[H|[H|[]]]]; try discriminate H;
        inversion H; subst; split; [exact E | reflexivity | exact E | reflexivity].
    + split; [|reflexivity]. intros format err' [H|[H|[]]]; discriminate H.
  - split; [|reflexivity]. intros format err' [H|[]]. discriminate H.
Qed.


(** ** The further properties on sample inputs *)


Lemma getStackBuffer_returns_witness :
  exists k,
    (k <= 46)%nat
    /\ fits (dumpRuntime (dumpOf sampleCurrent)) false k
    /\ (forall j, (j < k)%nat -> ~ fits (dumpRuntime (dumpOf sampleCurrent)) false j)
    /\ 0 <= snd (dumpRuntime (dumpOf sampleCurrent) (capacity k) false)
    /\ dumpOf sampleCurrent
       = firstn (Z.to_nat (snd (dumpRuntime (dumpOf sampleCurrent) (capacity k) false)))
                (fst (dumpRuntime (dumpOf sampleCurrent) (capacity k) false))
    /\ Z.of_nat (length (dumpOf sampleCurrent)) < capacity k.
Proof.
  apply (getStackBuffer_returns (dumpRuntime (dumpOf sampleCurrent)) false
                                (dumpOf sampleCurrent)).
  vm_compute. reflexivity.
Defined.

Lemma parseFirstFunc_last_paren_witness :
  parseFirstFunc ("009"%char :: $"main.(" ++ $"*T).run(0x1)" ++ [nl])
  = Returns ($"main.(" ++ $"*T).run").
Proof.
  apply (proj2 (parseFirstFunc_last_paren
                  ("009"%char :: $"main.(" ++ $"*T).run(0x1)" ++ [nl])
                  ($"main.(" ++ $"*T).run"))).
  split; [discriminate|].
  exists ($"0x1)"). split; [vm_compute; reflexivity | simpl; intuition discriminate].
Defined.

Lemma parseGoStackHeader_errors_witness :
  exists e, snd (parseGoStackHeader ($"goroutine 12" ++ [nl])) = Some e.
Proof.
  apply (proj2 (proj1 (parseGoStackHeader_errors ($"goroutine 12" ++ [nl])))).
  left. vm_compute. discriminate.
Defined.

Lemma parseGoStackHeader_negative_id_witness :
  parseGoStackHeader ($"goroutine -42 [select]:" ++ [nl]) = (-42, $"select", None).
Proof.
  apply (parseGoStackHeader_negative_id [4%nat; 2%nat] $"select").
  - discriminate.
  - repeat constructor.
  - vm_compute. discriminate.
Defined.

Lemma getStacks_stacks_or_error_witness :
  (@None error = None /\ map stackOf sampleRecords <> [])
  \/ (exists e, @None error = Some e /\ map stackOf sampleRecords = []).
Proof.
  apply (getStacks_stacks_or_error (dumpRuntime (dumpOf sampleRecords)) true).
  vm_compute. reflexivity.
Defined.

Lemma getStacks_headers_in_order_witness :
  map idState (map stackOf sampleRecords)
  = map headerFields (filter isHeader (fst (splitLines (dumpOf sampleRecords)))).
Proof.
  apply (getStacks_headers_in_order (dumpRuntime (dumpOf sampleRecords)) true).
  - vm_compute. reflexivity.
  - vm_compute. reflexivity.
Defined.

Lemma getStacks_keeps_text_witness :
  exists tail,
    ~ In nl tail
    /\ dumpOf sampleRecords ++ $"goroutine 9 [sel"
       = concat (map fullStack (map stackOf sampleRecords)) ++ tail.
Proof.
  apply (getStacks_keeps_text
           (dumpRuntime (dumpOf sampleRecords ++ $"goroutine 9 [sel")) true).
  - vm_compute. reflexivity.
  - vm_compute. reflexivity.
Defined.

Lemma getStacks_reparse_witness :
  getStacks (dumpRuntime (concat (map fullStack (map stackOf sampleRecords)))) false
  = Some (Returns (map stackOf sampleRecords, None)).
Proof.
  apply (getStacks_reparse
           (dumpRuntime (dumpOf sampleRecords ++ $"goroutine 9 [sel"))
           (dumpRuntime (concat (map fullStack (map stackOf sampleRecords))))
           true false
           (dumpOf sampleRecords ++ $"goroutine 9 [sel")).
  - vm_compute. reflexivity.
  - vm_compute. reflexivity.
  - vm_compute. reflexivity.
Defined.

Lemma getStacks_panics_witness :
  getStacksPanic nilDereference
  /\ nilDereference <> panicString $"bufio.NewReader failed on a fixed string"
  /\ nilDereference <> indexOutOfRange.
Proof.
  apply (getStacks_panics (dumpRuntime sampleNoHeader) true).
  vm_compute. reflexivity.
Defined.

Lemma Current_from_getStacks_witness :
  Current (dumpRuntime (dumpOf sampleCurrent))
  = Some (Returns (stackOf (mkGoroutine [7%nat] $"running" [$"testing.tRunner(0xc000)"]),
                   None)).
Proof.
  apply (proj2 (proj2 (proj2 (Current_from_getStacks
                                (dumpRuntime (dumpOf sampleCurrent)))) _)).
  exists []. vm_compute. reflexivity.
Defined.

Lemma getStacks_header_only_records_witness :
  getStacks (dumpRuntime (concat (map headerLine sampleRecords))) true
  = Some (Returns (map bareStack sampleRecords, None)).
Proof.
  apply (getStacks_header_only_records
           (dumpRuntime (concat (map headerLine sampleRecords))) true sampleRecords).
  - vm_compute. reflexivity.
  - discriminate.
  - vm_compute. reflexivity.
Defined.

Lemma Current_first_of_several_witness :
  Current (dumpRuntime (dumpOf sampleRecords))
  = Some (Returns (stackOf (mkGoroutine
                              [1%nat] $"running"
                              [$"main.(" ++ $"*T).run(0x1)";
                               "009"%char :: $"/src/main.go:12 +0x1d"]),
                   None)).
Proof.
  apply (Current_first_of_several
           (dumpRuntime (dumpOf sampleRecords))
           (mkGoroutine [1%nat] $"running"
                        [$"main.(" ++ $"*T).run(0x1)"; "009"%char :: $"/src/main.go:12 +0x1d"])
           [mkGoroutine [2%nat; 2%nat] $"chan receive" [$"net.accept(...)"]]).
  - vm_compute. reflexivity.
  - vm_compute. reflexivity.
Defined.

Lemma verifyTestMain_passing_tests_witness :
  exists code tail,
    goleak.exec (stubsOf 0 None) (goleak.verifyTestMain unit [tt])
    = (code, goleak.RunCalled :: goleak.FindCalled [tt] :: tail)
    /\ (forall e, In e tail -> isStderrWritten e = true)
    /\ (goleak.findResult (stubsOf 0 None) [tt] = None -> code = 0 /\ tail = []).
Proof.
  apply (verifyTestMain_passing_tests unit (stubsOf 0 None) [tt]).
  reflexivity.
Defined.

Lemma verifyTestMain_one_diagnostic_witness :
  length (filter isStderrWritten
                 (snd (goleak.exec (stubsOf 0 (Some errNoStacks))
                                   (goleak.verifyTestMain unit []))))
  = 1%nat.
Proof.
  exact (proj2 (verifyTestMain_one_diagnostic unit (stubsOf 0 (Some errNoStacks)) [])).
Defined.

